(** * UCN Deployment Map: search, filters and live synchronisation

    A shallow embedding of the public map's logic (js/main.js), the marker
    and popup builders (js/map.js), the status table (js/config.js) and the
    pin loader (js/storage.js), followed by the properties of the search
    radius filter, the legend filters and the realtime handlers.

    Conventions.
    - JavaScript numbers are IEEE binary64 values: [float] with the
      primitive operations of [PrimFloat].
    - Strings that are only stored, concatenated and compared (status keys,
      class names, colours, identifiers) are [string]s.  The text of the
      search box is classified code unit by code unit ([trim], [\d]), so it
      and the messages built from it are lists of UTF-16 code units.
    - Module-level [let] variables, the Leaflet layers and the few DOM nodes
      the code writes to are fields of one [State] record; each handler is a
      function on [State].  An [await] is a point where the environment
      answers; the answer is an argument of the handler.
    - What the browser or Leaflet supplies ([Math.sin], the path element of
      a marker, the locale's date format) is a field of the class [Host]. *)

From Stdlib Require Import ZArith NArith List Floats Bool Lia.
From stdpp Require Import gmap strings list fin_maps pretty.

#[local] Set Warnings "-inexact-float,-register-all,-clear-no-such-hyp".

(* ===================================================================== *)
(** * JavaScript values *)
(* ===================================================================== *)

(** A string as a sequence of UTF-16 code units. *)
Definition codeunits := list N.

(** The code units of an ASCII literal. *)
Definition lit (s : string) : codeunits :=
  map Ascii.N_of_ascii (String.list_ascii_of_string s).

(** Pin identifiers are "string|number" (storage.js); [===] on them is
    equality of type and value. *)
Inductive jsid :=
  | IdNum (n : Z)
  | IdStr (s : string).

#[global] Instance jsid_eq_dec : EqDecision jsid.
Proof. solve_decision. Defined.

(** Exceptions that the modelled code can raise or meet. *)
Inductive exn :=
  | TypeError (what : string)
  | SyntaxError
  | NetworkError
  | RequestFailed (status : nat).

(** Outcome of a call: a value or a thrown exception. *)
Inductive result (A : Type) :=
  | Ok (a : A)
  | Throw (e : exn).
Arguments Ok {A} a.
Arguments Throw {A} e.

(** Reading property [k] of an object literal with own properties [o]: an
    own property wins, then the properties every object inherits from
    [Object.prototype], else [undefined]. *)
Definition Object_prototype_keys : list string :=
  [ "constructor"; "__defineGetter__"; "__defineSetter__"; "hasOwnProperty";
    "__lookupGetter__"; "__lookupSetter__"; "isPrototypeOf";
    "propertyIsEnumerable"; "toString"; "valueOf"; "__proto__";
    "toLocaleString" ]%string.

Inductive prop (A : Type) :=
  | Own (a : A)
  | Inherited
  | Undefined.
Arguments Own {A} a.
Arguments Inherited {A}.
Arguments Undefined {A}.

Definition get_prop {A} (o : gmap string A) (k : string) : prop A :=
  match o !! k with
  | Some a => Own a
  | None => if decide (k ∈ Object_prototype_keys) then Inherited else Undefined
  end.

(** [classList.add] and [classList.remove] on a token list. *)
Definition classList_add (tok : string) (cl : list string) : list string :=
  if decide (tok ∈ cl) then cl else cl ++ [tok].

Definition classList_remove (tok : string) (cl : list string) : list string :=
  filter (fun c => c ≠ tok) cl.

(** A string is truthy when it is not empty; [null] and [undefined] are
    falsy. *)
Definition truthy (s : option string) : bool :=
  match s with
  | Some s => negb (bool_decide (s = ""%string))
  | None => false
  end.

(* ===================================================================== *)
(** * What the host supplies *)
(* ===================================================================== *)

Class Host := {
  (** [Math.sin], [Math.cos], [Math.atan2] of the JavaScript engine *)
  Math_sin : float -> float;
  Math_cos : float -> float;
  Math_atan2 : float -> float -> float;
  (** [new Date(s).toLocaleDateString()] *)
  toLocaleDateString : string -> string;
  (** the class list of the path element Leaflet's renderer creates for a
      circle marker with the given [className] option when the marker is
      added to the map; [None] when the renderer gives the layer no element
      of its own ([getElement()] is undefined) *)
  initPath : string -> option (list string)
}.

Definition Math_PI : float := 0x1.921fb54442d18p+1%float.

(* ===================================================================== *)
(** * config.js *)
(* ===================================================================== *)

Record StatusDef := {
  label : string;
  color : string;
  emoji : string
}.

Module CONFIG.
Definition DonateUrl : string := "https://www.unitedcajunnavy.org/donate".
Definition VolunteerUrl : string := "https://www.unitedcajunnavy.org/volunteer".
Definition RequestHelpUrl : string := "https://www.unitedcajunnavy.org/request-help".
End CONFIG.

Module PIN_STATUS.
Definition critical : StatusDef :=
  {| label := "Critical"; color := "#dc2626"; emoji := "🔴" |}.
Definition warning : StatusDef :=
  {| label := "Warning"; color := "#f97316"; emoji := "🟠" |}.
Definition active : StatusDef :=
  {| label := "Active"; color := "#16a34a"; emoji := "🟢" |}.
Definition past : StatusDef :=
  {| label := "Past"; color := "#2563eb"; emoji := "🔵" |}.
Definition weather : StatusDef :=
  {| label := "Weather"; color := "#eab308"; emoji := "🟡" |}.

(** The object literal: its own properties. *)
Definition table : gmap string StatusDef :=
  <["critical"%string := critical]>
    (<["warning"%string := warning]>
      (<["active"%string := active]>
        (<["past"%string := past]>
          (<["weather"%string := weather]> ∅)))).
End PIN_STATUS.

(** The five recognised categories. *)
Definition categories : list string :=
  [ "critical"; "warning"; "active"; "past"; "weather" ]%string.

(* ===================================================================== *)
(** * Data model *)
(* ===================================================================== *)

Record Pin := {
  pin_id : jsid;
  title : string;
  address : option string;
  status : string;
  summary : option string;
  url : option string;
  url_text : option string;
  pin_lat : float;
  pin_lng : float;
  show_donate : option bool;
  show_volunteer : option bool;
  show_help : option bool;
  created_at : string
}.

(** [flag === true] for a boolean column that may be null. *)
Definition is_true (flag : option bool) : bool :=
  match flag with
  | Some true => true
  | _ => false
  end.

(** A DOM element as [createPopupContent] builds it. *)
Inductive Element := mkElement {
  tagName : string;
  className : string;
  textContent : string;
  href : option string;
  target : option string;
  backgroundColor : option string;
  children : list Element
}.

Definition createElement (tag : string) : Element :=
  {| tagName := tag; className := ""; textContent := ""; href := None;
     target := None; backgroundColor := None; children := [] |}.

Definition set_className (c : string) (e : Element) : Element :=
  {| tagName := tagName e; className := c; textContent := textContent e;
     href := href e; target := target e;
     backgroundColor := backgroundColor e; children := children e |}.

Definition set_textContent (t : string) (e : Element) : Element :=
  {| tagName := tagName e; className := className e; textContent := t;
     href := href e; target := target e;
     backgroundColor := backgroundColor e; children := children e |}.

Definition set_href (h : string) (e : Element) : Element :=
  {| tagName := tagName e; className := className e;
     textContent := textContent e; href := Some h; target := target e;
     backgroundColor := backgroundColor e; children := children e |}.

Definition set_target (t : string) (e : Element) : Element :=
  {| tagName := tagName e; className := className e;
     textContent := textContent e; href := href e; target := Some t;
     backgroundColor := backgroundColor e; children := children e |}.

(** [el.style.backgroundColor = c]; assigning [undefined] leaves the
    property as it was. *)
Definition set_backgroundColor (c : option string) (e : Element) : Element :=
  {| tagName := tagName e; className := className e;
     textContent := textContent e; href := href e; target := target e;
     backgroundColor := match c with Some _ => c | None => backgroundColor e end;
     children := children e |}.

Definition appendChild (child : Element) (e : Element) : Element :=
  {| tagName := tagName e; className := className e;
     textContent := textContent e; href := href e; target := target e;
     backgroundColor := backgroundColor e; children := children e ++ [child] |}.

(** Options of [L.circleMarker]. *)
Record MarkerOptions := {
  mo_radius : float;
  mo_fillColor : option string;
  mo_color : string;
  mo_weight : float;
  mo_opacity : float;
  mo_fillOpacity : float;
  mo_className : string
}.

(** A circle marker: its options, the pin stored on it, the popup bound to
    it and, once Leaflet has drawn it, the class list of its element. *)
Record Marker := {
  m_lat : float;
  m_lng : float;
  options : MarkerOptions;
  pinData : option Pin;
  popup : option Element;
  el : option (list string)
}.

(** The radius overlay of a search ([L.circle]). *)
Record Circle := {
  leaflet_id : nat;
  c_lat : float;
  c_lng : float;
  c_radius : float;
  c_color : string;
  c_fillColor : string;
  c_fillOpacity : float;
  c_weight : float;
  c_dashArray : string
}.

(** A number held in the counts object: a count, or NaN after [++] on a
    value that is not a number. *)
Inductive countval :=
  | Count (n : nat)
  | CountNaN.

(** A clickable legend entry. *)
Record LegendItem := {
  dataset_status : string;
  li_classList : list string
}.

(** The search result line. *)
Record ResultLine := {
  rl_textContent : codeunits;
  rl_classList : list string
}.

(** What a handler does to the outside world, in order. *)
Inductive Event :=
  | EvFetch (q : codeunits)
  | EvShowSearchResult (message : codeunits) (type : string)
  | EvSetView (vlat vlng : float) (zoom : nat)
  | EvConsoleError (what : string).

(* ===================================================================== *)
(** * Program state *)
(* ===================================================================== *)

Record State := {
  (** main.js *)
  pinsCache : list Pin;
  activeFilters : gset string;
  searchCircle : option Circle;
  (** map.js: the layers of [markersLayer], oldest first *)
  markersLayer : list Marker;
  (** Leaflet: overlays added to the map itself, and its layer stamp *)
  mapOverlays : list Circle;
  lastId : nat;
  (** DOM: text of the elements carrying [data-count], by attribute value *)
  countEls : gmap string countval;
  legendItems : list LegendItem;
  searchResult : ResultLine;
  (** effects so far *)
  log : list Event
}.

Definition with_pinsCache (v : list Pin) (st : State) : State :=
  {| pinsCache := v; activeFilters := activeFilters st;
     searchCircle := searchCircle st; markersLayer := markersLayer st;
     mapOverlays := mapOverlays st; lastId := lastId st;
     countEls := countEls st; legendItems := legendItems st;
     searchResult := searchResult st; log := log st |}.

Definition with_activeFilters (v : gset string) (st : State) : State :=
  {| pinsCache := pinsCache st; activeFilters := v;
     searchCircle := searchCircle st; markersLayer := markersLayer st;
     mapOverlays := mapOverlays st; lastId := lastId st;
     countEls := countEls st; legendItems := legendItems st;
     searchResult := searchResult st; log := log st |}.

Definition with_searchCircle (v : option Circle) (st : State) : State :=
  {| pinsCache := pinsCache st; activeFilters := activeFilters st;
     searchCircle := v; markersLayer := markersLayer st;
     mapOverlays := mapOverlays st; lastId := lastId st;
     countEls := countEls st; legendItems := legendItems st;
     searchResult := searchResult st; log := log st |}.

Definition with_markersLayer (v : list Marker) (st : State) : State :=
  {| pinsCache := pinsCache st; activeFilters := activeFilters st;
     searchCircle := searchCircle st; markersLayer := v;
     mapOverlays := mapOverlays st; lastId := lastId st;
     countEls := countEls st; legendItems := legendItems st;
     searchResult := searchResult st; log := log st |}.

Definition with_mapOverlays (v : list Circle) (st : State) : State :=
  {| pinsCache := pinsCache st; activeFilters := activeFilters st;
     searchCircle := searchCircle st; markersLayer := markersLayer st;
     mapOverlays := v; lastId := lastId st;
     countEls := countEls st; legendItems := legendItems st;
     searchResult := searchResult st; log := log st |}.

Definition with_lastId (v : nat) (st : State) : State :=
  {| pinsCache := pinsCache st; activeFilters := activeFilters st;
     searchCircle := searchCircle st; markersLayer := markersLayer st;
     mapOverlays := mapOverlays st; lastId := v;
     countEls := countEls st; legendItems := legendItems st;
     searchResult := searchResult st; log := log st |}.

Definition with_countEls (v : gmap string countval) (st : State) : State :=
  {| pinsCache := pinsCache st; activeFilters := activeFilters st;
     searchCircle := searchCircle st; markersLayer := markersLayer st;
     mapOverlays := mapOverlays st; lastId := lastId st;
     countEls := v; legendItems := legendItems st;
     searchResult := searchResult st; log := log st |}.

Definition with_legendItems (v : list LegendItem) (st : State) : State :=
  {| pinsCache := pinsCache st; activeFilters := activeFilters st;
     searchCircle := searchCircle st; markersLayer := markersLayer st;
     mapOverlays := mapOverlays st; lastId := lastId st;
     countEls := countEls st; legendItems := v;
     searchResult := searchResult st; log := log st |}.

Definition with_searchResult (v : ResultLine) (st : State) : State :=
  {| pinsCache := pinsCache st; activeFilters := activeFilters st;
     searchCircle := searchCircle st; markersLayer := markersLayer st;
     mapOverlays := mapOverlays st; lastId := lastId st;
     countEls := countEls st; legendItems := legendItems st;
     searchResult := v; log := log st |}.

Definition emit (e : Event) (st : State) : State :=
  {| pinsCache := pinsCache st; activeFilters := activeFilters st;
     searchCircle := searchCircle st; markersLayer := markersLayer st;
     mapOverlays := mapOverlays st; lastId := lastId st;
     countEls := countEls st; legendItems := legendItems st;
     searchResult := searchResult st; log := log st ++ [e] |}.

(** Computations that read and write the state and may throw; what was
    written before a throw stays written. *)
Definition M (A : Type) : Type := State -> result A * State.

Definition ret {A} (a : A) : M A := fun st => (Ok a, st).

Definition bind {A B} (m : M A) (k : A -> M B) : M B :=
  fun st =>
    match m st with
    | (Ok a, st') => k a st'
    | (Throw e, st') => (Throw e, st')
    end.

Definition throw {A} (e : exn) : M A := fun st => (Throw e, st).

Definition try_catch {A} (body : M A) (handler : exn -> M A) : M A :=
  fun st =>
    match body st with
    | (Ok a, st') => (Ok a, st')
    | (Throw e, st') => handler e st'
    end.

(** A statement that cannot throw. *)
Definition run (f : State -> State) : M unit := fun st => (Ok tt, f st).

Declare Scope js_scope.
Delimit Scope js_scope with js.
Notation "x <- m ;; k" := (bind m (fun x => k))
  (at level 100, m at next level, right associativity) : js_scope.
Notation "m ;;; k" := (bind m (fun _ => k))
  (at level 100, right associativity) : js_scope.

#[local] Open Scope js_scope.

Definition get : M State := fun st => (Ok st, st).

Section Program.

Context `{Host}.

(* ===================================================================== *)
(** * map.js *)
(* ===================================================================== *)

Definition getMarkerClassName (status : string) : string :=
  let baseClass := "pin-marker--" +:+ status in
  (* Past pins don't pulse *)
  if decide (status = "past"%string) then baseClass
  else "pin-marker--pulse " +:+ baseClass.

(** [PIN_STATUS[s] || PIN_STATUS.active]: any property found, own or
    inherited, is an object or a function and so truthy. *)
Definition status_entry (s : string) : prop StatusDef :=
  match get_prop PIN_STATUS.table s with
  | Undefined => Own PIN_STATUS.active
  | found => found
  end.

(** [entry.color]: the objects inherited from [Object.prototype] have no
    such property. *)
Definition entry_color (entry : prop StatusDef) : option string :=
  match entry with
  | Own d => Some (color d)
  | _ => None
  end.

Definition createPinMarker (pin : Pin) : Marker :=
  let statusDef := status_entry (status pin) in
  let className := getMarkerClassName (status pin) in
  {| m_lat := pin_lat pin;
     m_lng := pin_lng pin;
     options := {| mo_radius := 10%float;
                   mo_fillColor := entry_color statusDef;
                   mo_color := "#ffffff";
                   mo_weight := 2%float;
                   mo_opacity := 1%float;
                   mo_fillOpacity := 0.9%float;
                   mo_className := className |};
     pinData := Some pin;
     popup := None;
     el := None |}.

(** One call-to-action link of the popup. *)
Definition actionButton (cls url text : string) : Element :=
  set_textContent text
    (set_target "_blank"
      (set_href url
        (set_className cls (createElement "a")))).

Definition donateBtn : Element :=
  actionButton "pin-popup__btn pin-popup__btn--donate" CONFIG.DonateUrl "Donate".

Definition volunteerBtn : Element :=
  actionButton "pin-popup__btn pin-popup__btn--volunteer" CONFIG.VolunteerUrl
    "Volunteer".

Definition helpBtn : Element :=
  actionButton "pin-popup__btn pin-popup__btn--help" CONFIG.RequestHelpUrl
    "Get Help".

Definition urlBtn (pin : Pin) : Element :=
  actionButton "pin-popup__btn pin-popup__btn--url" (default ""%string (url pin))
    (if truthy (url_text pin) then default ""%string (url_text pin)
     else "More Info"%string).

Definition createPopupContent (pin : Pin) : Element :=
  let statusDef := status_entry (status pin) in
  let date := toLocaleDateString (created_at pin) in
  let container := set_className "pin-popup" (createElement "div") in
  (* Header *)
  let header := set_className "pin-popup__header" (createElement "div") in
  let statusDot :=
    set_backgroundColor (entry_color statusDef)
      (set_className "pin-popup__status" (createElement "span")) in
  let title :=
    set_textContent (title pin)
      (set_className "pin-popup__title" (createElement "span")) in
  let header := appendChild statusDot header in
  let header := appendChild title header in
  let container := appendChild header container in
  (* Date *)
  let dateEl :=
    set_textContent date
      (set_className "pin-popup__date" (createElement "div")) in
  let container := appendChild dateEl container in
  (* Address (if present) *)
  let container :=
    if truthy (address pin) then
      appendChild
        (set_textContent (default ""%string (address pin))
           (set_className "pin-popup__address" (createElement "div")))
        container
    else container in
  (* Summary *)
  let container :=
    if truthy (summary pin) then
      appendChild
        (set_textContent (default ""%string (summary pin))
           (set_className "pin-popup__summary" (createElement "p")))
        container
    else container in
  (* Action buttons (only if at least one is enabled) *)
  let showDonate := is_true (show_donate pin) in
  let showVolunteer := is_true (show_volunteer pin) in
  let showHelp := is_true (show_help pin) in
  if showDonate || showVolunteer || showHelp then
    let actions := set_className "pin-popup__actions" (createElement "div") in
    let actions := if showDonate then appendChild donateBtn actions else actions in
    let actions :=
      if showVolunteer then appendChild volunteerBtn actions else actions in
    let actions := if showHelp then appendChild helpBtn actions else actions in
    (* Custom URL button *)
    let actions :=
      if truthy (url pin) then appendChild (urlBtn pin) actions else actions in
    appendChild actions container
  else container.

Definition bindPopup (content : Element) (marker : Marker) : Marker :=
  {| m_lat := m_lat marker; m_lng := m_lng marker; options := options marker;
     pinData := pinData marker; popup := Some content; el := el marker |}.

Definition set_el (cl : option (list string)) (marker : Marker) : Marker :=
  {| m_lat := m_lat marker; m_lng := m_lng marker; options := options marker;
     pinData := pinData marker; popup := popup marker; el := cl |}.

(** [markersLayer.addLayer(marker)]: the group is on the map, so Leaflet
    draws the marker. *)
Definition addLayer (marker : Marker) (layers : list Marker) : list Marker :=
  layers ++ [set_el (initPath (mo_className (options marker))) marker].

Definition renderPins (pins : list Pin) (st : State) : State :=
  (* Clear existing markers *)
  let cleared : list Marker := [] in
  with_markersLayer
    (foldl (fun layers pin =>
              let marker := createPinMarker pin in
              let popupContent := createPopupContent pin in
              addLayer (bindPopup popupContent marker) layers)
           cleared pins)
    st.

Definition addPinToMap (pin : Pin) (st : State) : State :=
  let marker := createPinMarker pin in
  let popupContent := createPopupContent pin in
  with_markersLayer (addLayer (bindPopup popupContent marker) (markersLayer st)) st.

(** The layers [removePinFromMap] removes. *)
Definition carries (pinId : jsid) (layer : Marker) : bool :=
  match pinData layer with
  | Some pin => bool_decide (pin_id pin = pinId)
  | None => false
  end.

Definition removePinFromMap (pinId : jsid) (st : State) : State :=
  with_markersLayer
    (filter (fun layer => carries pinId layer = false) (markersLayer st)) st.

Definition DIMMED : string := "pin-marker--dimmed".

Definition applyFilter_layer (activeStatuses : gset string) (layer : Marker)
  : Marker :=
  match pinData layer with
  | None => layer
  | Some pin =>
    match el layer with
    | None => layer
    | Some cl =>
      if decide (status pin ∈ activeStatuses)
      then set_el (Some (classList_remove DIMMED cl)) layer
      else set_el (Some (classList_add DIMMED cl)) layer
    end
  end.

Definition applyFilter (activeStatuses : gset string) (st : State) : State :=
  with_markersLayer (map (applyFilter_layer activeStatuses) (markersLayer st)) st.

Definition clearFilter_layer (layer : Marker) : Marker :=
  match el layer with
  | Some cl => set_el (Some (classList_remove DIMMED cl)) layer
  | None => layer
  end.

Definition clearFilter (st : State) : State :=
  with_markersLayer (map clearFilter_layer (markersLayer st)) st.

(* ===================================================================== *)
(** * storage.js *)
(* ===================================================================== *)

(** Body of a store response, as [JSON.parse] sees it.  The pins endpoint
    answers a select with a JSON array of rows. *)
Inductive Body :=
  | EmptyBody
  | Unparseable
  | Rows (rows : list Pin).

(** What the store request meets: the session query or [fetch] rejects, or
    a response arrives. *)
Inductive StoreReply :=
  | Rejected
  | Response (ok : bool) (code : nat) (body : Body).

Definition supabaseRequest (reply : StoreReply) : result (option (list Pin)) :=
  match reply with
  | Rejected => Throw NetworkError
  | Response ok code body =>
    if negb ok then Throw (RequestFailed code)
    else
      match body with
      | EmptyBody => Ok None
      | Unparseable => Throw SyntaxError
      | Rows rows => Ok (Some rows)
      end
  end.

Definition getAllPins (reply : StoreReply) : result (list Pin) :=
  match supabaseRequest reply with
  | Ok pins => Ok (default [] pins)
  | Throw err => (* console.error('Failed to load pins:', err) *) Ok []
  end.

(** A value that may be [null] or [undefined]. *)
Inductive nullable (A : Type) :=
  | Value (a : A)
  | Null
  | Undef.
Arguments Value {A} a.
Arguments Null {A}.
Arguments Undef {A}.

(** [result[0]] on what [supabaseRequest] resolved to: indexing [null]
    throws, indexing an empty array gives [undefined]. *)
Definition first_of (resolved : option (list Pin)) : result (nullable Pin) :=
  match resolved with
  | None => Throw (TypeError "Cannot read properties of null")
  | Some [] => Ok Undef
  | Some (row :: _) => Ok (Value row)
  end.

(** [v || null] *)
Definition or_null (v : nullable Pin) : nullable Pin :=
  match v with
  | Value row => Value row
  | _ => Null
  end.

(** The body [savePin] posts. *)
Record NewPin := {
  np_title : string;
  np_address : string;
  np_summary : string;
  np_status : string;
  np_lat : float;
  np_lng : float;
  np_url : string;
  np_url_text : string;
  np_show_donate : bool;
  np_show_volunteer : bool;
  np_show_help : bool
}.

(** [s || d] for a string that may be missing. *)
Definition or_string (s : option string) (d : string) : string :=
  if truthy s then default ""%string s else d.

(** [flag || false] *)
Definition or_false (flag : option bool) : bool := default false flag.

Definition savePin_body (pin : Pin) : NewPin :=
  {| np_title := title pin;
     np_address := or_string (address pin) "";
     np_summary := or_string (summary pin) "";
     np_status := status pin;
     np_lat := pin_lat pin;
     np_lng := pin_lng pin;
     np_url := or_string (url pin) "";
     np_url_text := or_string (url_text pin) "More Info";
     np_show_donate := or_false (show_donate pin);
     np_show_volunteer := or_false (show_volunteer pin);
     np_show_help := or_false (show_help pin) |}.

(** [savePin], [updatePin], [getPinById] and [deletePin], each on the
    store's reply to its one request. *)
Definition savePin (reply : StoreReply) : result (nullable Pin) :=
  match supabaseRequest reply with
  | Ok result =>
    match first_of result with
    | Ok row => Ok row
    | Throw err => (* console.error('Failed to save pin:', err) *) Ok Null
    end
  | Throw err => Ok Null
  end.

Definition updatePin (reply : StoreReply) : result (nullable Pin) :=
  match supabaseRequest reply with
  | Ok result =>
    match first_of result with
    | Ok row => Ok (or_null row)
    | Throw err => (* console.error('Failed to update pin:', err) *) Ok Null
    end
  | Throw err => Ok Null
  end.

Definition getPinById (reply : StoreReply) : result (nullable Pin) :=
  match supabaseRequest reply with
  | Ok result =>
    match first_of result with
    | Ok row => Ok (or_null row)
    | Throw err => (* console.error('Failed to get pin:', err) *) Ok Null
    end
  | Throw err => Ok Null
  end.

Definition deletePin (reply : StoreReply) : result bool :=
  match supabaseRequest reply with
  | Ok _ => Ok true
  | Throw err => (* console.error('Failed to delete pin:', err) *) Ok false
  end.

(** A change the realtime channel reports: [payload.new] of an insert or an
    update, [payload.old] of a delete. *)
Inductive Change :=
  | INSERT (new : Pin)
  | UPDATE (new : Pin)
  | DELETE (old : Pin).

(** The three listeners [subscribeToChanges] registers, as one function of
    the reported change. *)
Definition subscribeToChanges (onInsert onUpdate onDelete : Pin -> State -> State)
    (change : Change) : State -> State :=
  match change with
  | INSERT new => onInsert new
  | UPDATE new => onUpdate new
  | DELETE old => onDelete old
  end.

(* ===================================================================== *)
(** * main.js: search *)
(* ===================================================================== *)

Definition SEARCH_RADIUS_MILES : float := 50%float.

(** [WhiteSpace] and [LineTerminator] code points, all in the basic plane. *)
Definition is_whitespace (c : N) : bool :=
  ((9 <=? c) && (c <=? 13) || (c =? 32) || (c =? 160) || (c =? 5760)
   || (8192 <=? c) && (c <=? 8202) || (c =? 8232) || (c =? 8233)
   || (c =? 8239) || (c =? 8287) || (c =? 12288) || (c =? 65279))%N.

Fixpoint trimStart (s : codeunits) : codeunits :=
  match s with
  | c :: rest => if is_whitespace c then trimStart rest else s
  | [] => []
  end.

Definition trimEnd (s : codeunits) : codeunits := rev (trimStart (rev s)).

Definition trim (s : codeunits) : codeunits := trimEnd (trimStart s).

(** [\d] *)
Definition is_digit (c : N) : bool := ((48 <=? c) && (c <=? 57))%N.

(** [/^\d{5}$/.test(q)]: without the [m] flag the anchors are the two ends of
    the string. *)
Definition test_zip (q : codeunits) : bool :=
  (length q =? 5)%nat && forallb is_digit q.

Definition showSearchResult (message : codeunits) (type : string) (st : State)
  : State :=
  let cl := rl_classList (searchResult st) in
  let cl := classList_remove "is-hidden" cl in
  let cl := classList_remove "search-bar__result--error" cl in
  let cl := classList_remove "search-bar__result--success" cl in
  let cl :=
    if decide (type = "error"%string)
    then classList_add "search-bar__result--error" cl
    else if decide (type = "success"%string)
    then classList_add "search-bar__result--success" cl
    else cl in
  emit (EvShowSearchResult message type)
    (with_searchResult {| rl_textContent := message; rl_classList := cl |} st).

(** The geocoder's answer; [nr_lat] and [nr_lon] stand for
    [parseFloat(result.lat)] and [parseFloat(result.lon)]. *)
Record NominatimResult := {
  nr_lat : float;
  nr_lon : float;
  display_name : codeunits
}.

Inductive GeocoderReply :=
  | FetchRejected
  | FetchResponse (ok : bool) (json : option (list NominatimResult)).

Record Coords := {
  co_lat : float;
  co_lng : float;
  co_display : codeunits
}.

(** [s.split(',')] *)
Fixpoint split_comma (s : codeunits) : list codeunits :=
  match s with
  | [] => [[]]
  | c :: rest =>
    if (c =? 44)%N then [] :: split_comma rest
    else
      match split_comma rest with
      | part :: parts => (c :: part) :: parts
      | [] => [[c]]
      end
  end.

(** [parts.join(',')] *)
Fixpoint join_comma (parts : list codeunits) : codeunits :=
  match parts with
  | [] => []
  | [part] => part
  | part :: rest => part ++ 44%N :: join_comma rest
  end.

Definition geocode (zipCode : codeunits) (reply : GeocoderReply)
  : M (option Coords) :=
  run (emit (EvFetch (zipCode ++ lit ", USA"))) ;;;
  match reply with
  | FetchRejected => throw NetworkError
  | FetchResponse ok json =>
    if negb ok then ret None
    else
      match json with
      | None => throw SyntaxError
      | Some [] => ret None
      | Some (result :: _) =>
        (* Extract city/state from display name *)
        let parts := split_comma (display_name result) in
        let display := trim (join_comma (take 2 parts)) in
        ret (Some {| co_lat := nr_lat result; co_lng := nr_lon result;
                     co_display := display |})
      end
  end.

Definition toRad (deg : float) : float := (deg * (Math_PI / 180))%float.

Definition haversineDistance (lat1 lng1 lat2 lng2 : float) : float :=
  let R := 3959%float in (* Earth radius in miles *)
  let dLat := toRad (lat2 - lat1) in
  let dLng := toRad (lng2 - lng1) in
  let a :=
    (Math_sin (dLat / 2) * Math_sin (dLat / 2) +
     Math_cos (toRad lat1) * Math_cos (toRad lat2) *
     Math_sin (dLng / 2) * Math_sin (dLng / 2))%float in
  let c := (2 * Math_atan2 (PrimFloat.sqrt a) (PrimFloat.sqrt (1 - a)))%float in
  (R * c)%float.

Definition findPinsInRadius (lat lng radiusMiles : float) (st : State)
  : list Pin :=
  filter (fun pin =>
            let distance :=
              haversineDistance lat lng (pin_lat pin) (pin_lng pin) in
            (distance <=? radiusMiles)%float = true)
         (pinsCache st).

(** What an expression of main.js that is meant to be the map evaluates to:
    the Leaflet map, or a promise of it. *)
Inductive MapRef :=
  | MapInstance
  | PromiseOfMap.

(** main.js imports no [getMap] from map.js; the name is bound to its own
    [async function getMap()], and a call of an async function evaluates to
    a promise. *)
Definition getMap : MapRef := PromiseOfMap.

(** [import('./map.js').then(m => m.getMap())], awaited: map.js's
    [mapInstance], set by [initMap] before any handler is installed. *)
Definition awaited_getMap : MapRef := MapInstance.

(** [map.removeLayer(layer)]; a promise has no such method. *)
Definition removeLayer (map : MapRef) (layer : Circle) : M unit :=
  match map with
  | MapInstance =>
    run (fun st =>
           with_mapOverlays
             (filter (fun o => leaflet_id o ≠ leaflet_id layer) (mapOverlays st))
             st)
  | PromiseOfMap => throw (TypeError "map.removeLayer is not a function")
  end.

(** [map.setView([lat, lng], zoom)] *)
Definition setView (map : MapRef) (vlat vlng : float) (zoom : nat) : M unit :=
  match map with
  | MapInstance => run (emit (EvSetView vlat vlng zoom))
  | PromiseOfMap => throw (TypeError "map.setView is not a function")
  end.

(** [L.circle([lat, lng], {...})] with the options of [drawSearchCircle];
    a layer is not stamped until a map takes it. *)
Definition L_circle (clat clng : float) : Circle :=
  {| leaflet_id := 0;
     c_lat := clat;
     c_lng := clng;
     c_radius := (SEARCH_RADIUS_MILES * 1609.34)%float;
     c_color := "#1e3a5f";
     c_fillColor := "#1e3a5f";
     c_fillOpacity := 0.1%float;
     c_weight := 2%float;
     c_dashArray := "5, 5" |}.

Definition stamp (n : nat) (layer : Circle) : Circle :=
  {| leaflet_id := n; c_lat := c_lat layer; c_lng := c_lng layer;
     c_radius := c_radius layer; c_color := c_color layer;
     c_fillColor := c_fillColor layer; c_fillOpacity := c_fillOpacity layer;
     c_weight := c_weight layer; c_dashArray := c_dashArray layer |}.

(** [layer.addTo(map)] is [map.addLayer(layer); return layer]; the map
    stamps the layer with a fresh number and keeps it. *)
Definition addTo (layer : Circle) (map : MapRef) : M Circle :=
  match map with
  | MapInstance =>
    fun st =>
      let n := S (lastId st) in
      let layer := stamp n layer in
      (Ok layer, with_mapOverlays (mapOverlays st ++ [layer]) (with_lastId n st))
  | PromiseOfMap => throw (TypeError "map.addLayer is not a function")
  end.

Definition drawSearchCircle (clat clng : float) : M unit :=
  let map := getMap in
  st <- get ;;
  (* Remove existing circle *)
  match searchCircle st with
  | Some old => removeLayer map old
  | None => ret tt
  end ;;;
  (* Draw new circle (50 miles = ~80467 meters) *)
  drawn <- addTo (L_circle clat clng) map ;;
  run (with_searchCircle (Some drawn)).

(** [String(SEARCH_RADIUS_MILES)] *)
Definition SEARCH_RADIUS_MILES_text : codeunits := lit "50".

Definition CHECK_MARK : N := 10003.
Definition EM_DASH : N := 8212.

Definition found_prefix (query : codeunits) (coords : Coords) : codeunits :=
  CHECK_MARK :: lit " Found " ++ query ++ lit " (" ++ co_display coords
    ++ lit ") " ++ [EM_DASH] ++ lit " ".

Definition not_found_message (query : codeunits) : codeunits :=
  lit "Zip code " ++ query ++ lit " not found".

Definition handleSearch (value : codeunits) (reply : GeocoderReply) : M unit :=
  let query := trim value in
  (* Validate zip code format *)
  if bool_decide (query = []) then
    run (showSearchResult (lit "Please enter a zip code") "error")
  else if negb (test_zip query) then
    run (showSearchResult (lit "Please enter a valid 5-digit zip code") "error")
  else
    (* Show loading state *)
    run (showSearchResult (lit "Searching...") "neutral") ;;;
    try_catch
      ((* Geocode the zip code *)
       coords <- geocode query reply ;;
       match coords with
       | None => run (showSearchResult (not_found_message query) "error")
       | Some coords =>
         (* Find pins within radius *)
         st <- get ;;
         let nearbyPins :=
           findPinsInRadius (co_lat coords) (co_lng coords)
             SEARCH_RADIUS_MILES st in
         (* Pan to location *)
         let map := awaited_getMap in
         setView map (co_lat coords) (co_lng coords) 9 ;;;
         (* Draw search radius circle *)
         drawSearchCircle (co_lat coords) (co_lng coords) ;;;
         (* Show confirmation with location name *)
         if (length nearbyPins =? 0)%nat then
           run (showSearchResult
                  (found_prefix query coords ++ lit "No pins within "
                     ++ SEARCH_RADIUS_MILES_text ++ lit " miles")
                  "neutral")
         else
           run (showSearchResult
                  (found_prefix query coords
                     ++ lit (pretty (length nearbyPins)) ++ lit " pin"
                     ++ (if (length nearbyPins =? 1)%nat then [] else lit "s")
                     ++ lit " within " ++ SEARCH_RADIUS_MILES_text
                     ++ lit " miles")
                  "success")
       end)
      (fun err =>
         run (emit (EvConsoleError "Search error:")) ;;;
         run (showSearchResult (lit "Search failed. Please try again.") "error")).

(* ===================================================================== *)
(** * main.js: filters *)
(* ===================================================================== *)

Definition updateFilterUI (st : State) : State :=
  with_legendItems
    (map (fun item =>
            let status := dataset_status item in
            if decide (status ∈ activeFilters st) then
              {| dataset_status := status;
                 li_classList :=
                   classList_remove "legend__item--dimmed" (li_classList item) |}
            else
              {| dataset_status := status;
                 li_classList :=
                   classList_add "legend__item--dimmed" (li_classList item) |})
         (legendItems st))
    st.

Definition toggleFilter (status : string) (st : State) : State :=
  let st :=
    if decide (status ∈ activeFilters st)
    then with_activeFilters (activeFilters st ∖ {[status]}) st
    else with_activeFilters (activeFilters st ∪ {[status]}) st in
  let st := updateFilterUI st in
  applyFilter (activeFilters st) st.

(** [new Set(['critical', 'warning', 'active', 'past', 'weather'])] *)
Definition all_filters : gset string := list_to_set categories.

Definition resetFilters (st : State) : State :=
  let st := with_activeFilters all_filters st in
  let st := updateFilterUI st in
  clearFilter st.

(* ===================================================================== *)
(** * main.js: counts *)
(* ===================================================================== *)

Definition counts_init : gmap string countval :=
  <["critical"%string := Count 0]>
    (<["warning"%string := Count 0]>
      (<["active"%string := Count 0]>
        (<["past"%string := Count 0]>
          (<["weather"%string := Count 0]> ∅)))).

(** [v++] *)
Definition incr (v : countval) : countval :=
  match v with
  | Count n => Count (S n)
  | CountNaN => CountNaN
  end.

(** [if (counts[pin.status] !== undefined) counts[pin.status]++].  An
    inherited method or object converts to NaN, and NaN + 1 is stored as an
    own property, except under ["__proto__"], whose setter ignores
    numbers. *)
Definition count_pin (counts : gmap string countval) (pin : Pin)
  : gmap string countval :=
  match get_prop counts (status pin) with
  | Own v => <[status pin := incr v]> counts
  | Inherited =>
    if decide (status pin = "__proto__"%string) then counts
    else <[status pin := CountNaN]> counts
  | Undefined => counts
  end.

Definition tally (pins : list Pin) : gmap string countval :=
  foldl count_pin counts_init pins.

(** Write each entry of the counts to the element that carries its key, if
    the page has one. *)
Definition show_counts (counts els : gmap string countval)
  : gmap string countval :=
  map_fold (fun status count els =>
              match els !! status with
              | Some _ => <[status := count]> els
              | None => els
              end)
           els counts.

Definition updateCounts (st : State) : State :=
  let counts := tally (pinsCache st) in
  (* Update count displays *)
  with_countEls (show_counts counts (countEls st)) st.

(* ===================================================================== *)
(** * main.js: realtime handlers and start-up *)
(* ===================================================================== *)

(** The three callbacks [setupRealtime] passes to [subscribeToChanges].
    [updateLastUpdated] writes the wall clock's time to the page and is left
    out, as are the [console.log] lines. *)

Definition onInsert (newPin : Pin) (st : State) : State :=
  let st := with_pinsCache (pinsCache st ++ [newPin]) st in
  let st := addPinToMap newPin st in
  let st := updateCounts st in
  (* Re-apply filters to include new pin *)
  if decide (status newPin ∈ activeFilters st) then st
  else applyFilter (activeFilters st) st.

(** [pins.findIndex(p => p.id === id)]; [None] stands for -1. *)
Definition findIndex (id : jsid) (pins : list Pin) : option nat :=
  fst <$> list_find (fun p => pin_id p = id) pins.

Definition onUpdate (updatedPin : Pin) (st : State) : State :=
  let index := findIndex (pin_id updatedPin) (pinsCache st) in
  let st :=
    match index with
    | Some index => with_pinsCache (<[index := updatedPin]> (pinsCache st)) st
    | None => st
    end in
  (* Re-render all pins to reflect changes *)
  let st := renderPins (pinsCache st) st in
  let st := updateCounts st in
  applyFilter (activeFilters st) st.

Definition onDelete (deletedPin : Pin) (st : State) : State :=
  let st :=
    with_pinsCache
      (filter (fun p => pin_id p ≠ pin_id deletedPin) (pinsCache st)) st in
  let st := removePinFromMap (pin_id deletedPin) st in
  updateCounts st.

Definition init (reply : StoreReply) : M unit :=
  (* Initialize map: markersLayer = L.layerGroup().addTo(mapInstance) *)
  run (with_markersLayer []) ;;;
  (* Load and render pins *)
  match getAllPins reply with
  | Ok pins =>
    run (with_pinsCache pins) ;;;
    run (fun st => renderPins (pinsCache st) st) ;;;
    run updateCounts
  | Throw e => throw e
  end.

Definition setupRealtime : Change -> State -> State :=
  subscribeToChanges onInsert onUpdate onDelete.

(** The channel's changes handled one after the other, in the order
    delivered. *)
Definition deliver (changes : list Change) (st : State) : State :=
  foldl (fun st change => setupRealtime change st) st changes.

End Program.

Arguments Value {A} a.
Arguments Null {A}.
Arguments Undef {A}.

(* ===================================================================== *)
(** * storage.js: authentication *)
(* ===================================================================== *)

(** What the identity service's client does on a call: it throws, or it
    resolves to a user (or none) and an error message (or none). *)
Inductive AuthReply :=
  | AuthThrew
  | AuthAnswer (user : option string) (error : option string).

Record SignInResult := {
  si_user : option string;
  si_error : option string
}.

Definition signIn (reply : AuthReply) : SignInResult :=
  match reply with
  | AuthAnswer user (Some message) => {| si_user := None; si_error := Some message |}
  | AuthAnswer user None => {| si_user := user; si_error := None |}
  | AuthThrew => {| si_user := None; si_error := Some "Sign in failed"%string |}
  end.

(** [signOut]: whether the client's call went through. *)
Definition signOut (threw : bool) : bool := negb threw.

(** The client's answer to [getSession]: it throws, or there is no session,
    or a session with its user (or none). *)
Inductive SessionReply :=
  | SessionThrew
  | NoSession
  | Session (user : option string).

(** The [user] field of what [getSession] returns: [session?.user || null]. *)
Definition getSession_user (reply : SessionReply) : option string :=
  match reply with
  | Session user => user
  | NoSession => None
  | SessionThrew => None
  end.

(* ===================================================================== *)
(** * admin.js: the login screen and the admin panel *)
(* ===================================================================== *)

Record ErrorLine := {
  le_textContent : string;
  le_classList : list string
}.

Record LoginButton := {
  lb_disabled : bool;
  lb_textContent : string
}.

Record AdminState := {
  loginScreen : list string;
  adminPanel : list string;
  loginError : ErrorLine;
  loginButton : LoginButton;
  emailInput : codeunits;
  passwordInput : codeunits;
  mapInitialized : bool;
  (** how often [initAdminMap] has been started, and the credentials of each
      [signIn] call, oldest first *)
  adminMapInits : nat;
  signInCalls : list (codeunits * codeunits)
}.

Definition with_screens (login panel : list string) (st : AdminState)
  : AdminState :=
  {| loginScreen := login; adminPanel := panel; loginError := loginError st;
     loginButton := loginButton st; emailInput := emailInput st;
     passwordInput := passwordInput st; mapInitialized := mapInitialized st;
     adminMapInits := adminMapInits st; signInCalls := signInCalls st |}.

Definition with_loginError (v : ErrorLine) (st : AdminState) : AdminState :=
  {| loginScreen := loginScreen st; adminPanel := adminPanel st; loginError := v;
     loginButton := loginButton st; emailInput := emailInput st;
     passwordInput := passwordInput st; mapInitialized := mapInitialized st;
     adminMapInits := adminMapInits st; signInCalls := signInCalls st |}.

Definition with_loginButton (v : LoginButton) (st : AdminState) : AdminState :=
  {| loginScreen := loginScreen st; adminPanel := adminPanel st;
     loginError := loginError st; loginButton := v; emailInput := emailInput st;
     passwordInput := passwordInput st; mapInitialized := mapInitialized st;
     adminMapInits := adminMapInits st; signInCalls := signInCalls st |}.

Definition with_inputs (email password : codeunits) (st : AdminState)
  : AdminState :=
  {| loginScreen := loginScreen st; adminPanel := adminPanel st;
     loginError := loginError st; loginButton := loginButton st;
     emailInput := email; passwordInput := password;
     mapInitialized := mapInitialized st;
     adminMapInits := adminMapInits st; signInCalls := signInCalls st |}.

Definition start_initAdminMap (st : AdminState) : AdminState :=
  {| loginScreen := loginScreen st; adminPanel := adminPanel st;
     loginError := loginError st; loginButton := loginButton st;
     emailInput := emailInput st; passwordInput := passwordInput st;
     mapInitialized := true;
     adminMapInits := S (adminMapInits st); signInCalls := signInCalls st |}.

Definition call_signIn (email password : codeunits) (st : AdminState)
  : AdminState :=
  {| loginScreen := loginScreen st; adminPanel := adminPanel st;
     loginError := loginError st; loginButton := loginButton st;
     emailInput := emailInput st; passwordInput := passwordInput st;
     mapInitialized := mapInitialized st;
     adminMapInits := adminMapInits st;
     signInCalls := signInCalls st ++ [(email, password)] |}.

Definition showLoginScreen (st : AdminState) : AdminState :=
  with_screens (classList_remove "is-hidden" (loginScreen st))
               (classList_add "is-hidden" (adminPanel st)) st.

Definition showAdminPanel (st : AdminState) : AdminState :=
  let st :=
    with_screens (classList_add "is-hidden" (loginScreen st))
                 (classList_remove "is-hidden" (adminPanel st)) st in
  if negb (mapInitialized st) then
    (* initAdminMap(); mapInitialized = true *)
    start_initAdminMap st
  else st.

Definition checkAuth (reply : SessionReply) (st : AdminState) : AdminState :=
  match getSession_user reply with
  | Some user => showAdminPanel st
  | None => showLoginScreen st
  end.

Definition showLoginError (message : string) (st : AdminState) : AdminState :=
  with_loginError
    {| le_textContent := message;
       le_classList := classList_remove "is-hidden" (le_classList (loginError st)) |}
    st.

Definition hideLoginError (st : AdminState) : AdminState :=
  with_loginError
    {| le_textContent := le_textContent (loginError st);
       le_classList := classList_add "is-hidden" (le_classList (loginError st)) |}
    st.

Definition handleLogin (reply : AuthReply) (st : AdminState) : AdminState :=
  let email := trim (emailInput st) in
  let password := passwordInput st in
  if bool_decide (email = []) || bool_decide (password = []) then
    showLoginError "Please enter email and password" st
  else
    (* Disable form while logging in *)
    let st :=
      with_loginButton {| lb_disabled := true; lb_textContent := "Signing in..." |}
        st in
    let st := call_signIn email password st in
    let outcome := signIn reply in
    (* Re-enable form *)
    let st :=
      with_loginButton {| lb_disabled := false; lb_textContent := "Sign In" |} st in
    if truthy (si_error outcome) then
      let st := showLoginError (default ""%string (si_error outcome)) st in
      with_inputs (emailInput st) [] st
    else
      let st := hideLoginError st in
      showAdminPanel st.

Definition handleLogout (threw : bool) (st : AdminState) : AdminState :=
  let _ := signOut threw in
  let st := showLoginScreen st in
  with_inputs [] [] st.

(** The listener given to [onAuthStateChange]. *)
Definition authStateChanged (event : string) (st : AdminState) : AdminState :=
  if decide (event = "SIGNED_OUT"%string) then showLoginScreen st else st.

(** What can happen on the admin page's login side. *)
Inductive AdminEvent :=
  | CheckAuth (reply : SessionReply)
  | Login (email password : codeunits) (reply : AuthReply)
  | Logout (threw : bool)
  | AuthStateChange (event : string).

(** An event handled: a login is the user typing into the two inputs and
    submitting the form. *)
Definition admin_step (e : AdminEvent) (st : AdminState) : AdminState :=
  match e with
  | CheckAuth reply => checkAuth reply st
  | Login email password reply =>
    handleLogin reply (with_inputs email password st)
  | Logout threw => handleLogout threw st
  | AuthStateChange event => authStateChanged event st
  end.

Definition admin_run (events : list AdminEvent) (st : AdminState) : AdminState :=
  foldl (fun st e => admin_step e st) st events.

(** The admin page as it loads: both screens hidden until [checkAuth] has
    decided, the map not initialised. *)
Definition admin_page : AdminState :=
  {| loginScreen := ["login-screen"; "is-hidden"]%string;
     adminPanel := ["admin-panel"; "is-hidden"]%string;
     loginError := {| le_textContent := ""; le_classList := ["is-hidden"%string] |};
     loginButton := {| lb_disabled := false; lb_textContent := "Sign In" |};
     emailInput := []; passwordInput := [];
     mapInitialized := false; adminMapInits := 0; signInCalls := [] |}.

(** Exactly one of the two screens is hidden. *)
Definition one_screen (st : AdminState) : Prop :=
  "is-hidden"%string ∈ loginScreen st ↔ "is-hidden"%string ∉ adminPanel st.

(* ===================================================================== *)
(** * admin.js: placing a pin *)
(* ===================================================================== *)

(** The values of the pin form's inputs. *)
Record PinForm := {
  pinTitleInput : codeunits;
  pinAddressInput : codeunits;
  pinStatusSelect : codeunits;
  pinSummaryInput : codeunits;
  pinUrlInput : codeunits;
  pinUrlTextInput : codeunits;
  pinShowDonateCheckbox : bool;
  pinShowVolunteerCheckbox : bool;
  pinShowHelpCheckbox : bool;
  pinLatInput : codeunits;
  pinLngInput : codeunits;
  pinIdInput : codeunits
}.

(** The grey marker of a click that is not saved yet. *)
Record TempMarker := {
  tm_stamp : nat;
  tm_lat : float;
  tm_lng : float;
  tm_radius : float;
  tm_fillColor : string;
  tm_color : string;
  tm_weight : float;
  tm_opacity : float;
  tm_fillOpacity : float
}.

Record EditorState := {
  tempMarker : option TempMarker;
  isEditing : bool;
  pinFormFields : PinForm;
  (** the class list of the form element *)
  pinForm : list string;
  (** Leaflet: the temporary markers on the map, and its layer stamp *)
  tempLayers : list TempMarker;
  tempStamp : nat
}.

Section Editor.

(** An input's text for a number: [String(n)]. *)
Variable String_of_number : float -> codeunits.

Definition resetForm (st : EditorState) : EditorState :=
  {| tempMarker := tempMarker st;
     isEditing := false;
     pinFormFields :=
       {| pinTitleInput := [];
          pinAddressInput := [];
          pinStatusSelect := lit "active";
          pinSummaryInput := [];
          pinUrlInput := [];
          pinUrlTextInput := lit "More Info";
          pinShowDonateCheckbox := false;
          pinShowVolunteerCheckbox := false;
          pinShowHelpCheckbox := false;
          pinLatInput := [];
          pinLngInput := [];
          pinIdInput := [] |};
     pinForm := pinForm st;
     tempLayers := tempLayers st;
     tempStamp := tempStamp st |}.

(** [getMap().removeLayer(tempMarker)], with map.js's synchronous
    [getMap]. *)
Definition remove_temp (marker : TempMarker) (st : EditorState) : EditorState :=
  {| tempMarker := tempMarker st;
     isEditing := isEditing st;
     pinFormFields := pinFormFields st;
     pinForm := pinForm st;
     tempLayers := filter (fun l => tm_stamp l ≠ tm_stamp marker) (tempLayers st);
     tempStamp := tempStamp st |}.

Definition set_tempMarker (v : option TempMarker) (st : EditorState)
  : EditorState :=
  {| tempMarker := v; isEditing := isEditing st;
     pinFormFields := pinFormFields st; pinForm := pinForm st;
     tempLayers := tempLayers st; tempStamp := tempStamp st |}.

Definition set_pinForm (cl : list string) (st : EditorState) : EditorState :=
  {| tempMarker := tempMarker st; isEditing := isEditing st;
     pinFormFields := pinFormFields st; pinForm := cl;
     tempLayers := tempLayers st; tempStamp := tempStamp st |}.

Definition handleMapClick (clat clng : float) (st : EditorState) : EditorState :=
  (* Remove existing temp marker if any *)
  let st :=
    match tempMarker st with
    | Some old => remove_temp old st
    | None => st
    end in
  (* Create temp marker *)
  let n := S (tempStamp st) in
  let marker :=
    {| tm_stamp := n; tm_lat := clat; tm_lng := clng; tm_radius := 10%float;
       tm_fillColor := "#888888"; tm_color := "#ffffff"; tm_weight := 2%float;
       tm_opacity := 1%float; tm_fillOpacity := 0.7%float |} in
  let st :=
    {| tempMarker := Some marker; isEditing := isEditing st;
       pinFormFields := pinFormFields st; pinForm := pinForm st;
       tempLayers := tempLayers st ++ [marker]; tempStamp := n |} in
  (* Reset form for new pin *)
  let st := resetForm st in
  let fields := pinFormFields st in
  let st :=
    {| tempMarker := tempMarker st;
       isEditing := false;
       pinFormFields :=
         {| pinTitleInput := pinTitleInput fields;
            pinAddressInput := pinAddressInput fields;
            pinStatusSelect := pinStatusSelect fields;
            pinSummaryInput := pinSummaryInput fields;
            pinUrlInput := pinUrlInput fields;
            pinUrlTextInput := pinUrlTextInput fields;
            pinShowDonateCheckbox := pinShowDonateCheckbox fields;
            pinShowVolunteerCheckbox := pinShowVolunteerCheckbox fields;
            pinShowHelpCheckbox := pinShowHelpCheckbox fields;
            pinLatInput := String_of_number clat;
            pinLngInput := String_of_number clng;
            pinIdInput := pinIdInput fields |};
       pinForm := pinForm st;
       tempLayers := tempLayers st;
       tempStamp := tempStamp st |} in
  (* Show form *)
  set_pinForm (classList_remove "is-hidden" (pinForm st)) st.

Definition handleCancel (st : EditorState) : EditorState :=
  (* Remove temp marker *)
  let st :=
    match tempMarker st with
    | Some old => set_tempMarker None (remove_temp old st)
    | None => st
    end in
  let st := resetForm st in
  set_pinForm (classList_add "is-hidden" (pinForm st)) st.

(** A click on the map or a press of Cancel. *)
Inductive EditorEvent :=
  | MapClick (clat clng : float)
  | Cancel.

Definition editor_step (e : EditorEvent) (st : EditorState) : EditorState :=
  match e with
  | MapClick clat clng => handleMapClick clat clng st
  | Cancel => handleCancel st
  end.

Definition editor_run (events : list EditorEvent) (st : EditorState)
  : EditorState :=
  foldl (fun st e => editor_step e st) st events.

End Editor.

(** The map holds the temporary marker the editor remembers, and no other. *)
Definition one_temp_marker (st : EditorState) : Prop :=
  tempLayers st = option_list (tempMarker st).

(** The editor as the admin panel opens: no temporary marker, the form
    hidden. *)
Definition editor_start : EditorState :=
  {| tempMarker := None; isEditing := false;
     pinFormFields :=
       {| pinTitleInput := []; pinAddressInput := []; pinStatusSelect := lit "active";
          pinSummaryInput := []; pinUrlInput := []; pinUrlTextInput := lit "More Info";
          pinShowDonateCheckbox := false; pinShowVolunteerCheckbox := false;
          pinShowHelpCheckbox := false; pinLatInput := []; pinLngInput := [];
          pinIdInput := [] |};
     pinForm := ["pin-form"; "is-hidden"]%string;
     tempLayers := []; tempStamp := 0 |}.

(* ===================================================================== *)
(** * A host and a page to run the program on *)
(* ===================================================================== *)

Module SeriesHost.
#[local] Open Scope float_scope.

(** Truncated Taylor series; close to the real functions for the small
    angles that map distances involve. *)
Definition sin (x : float) : float :=
  let x2 := x * x in
  x * (1 - x2 / 6 * (1 - x2 / 20 * (1 - x2 / 42 * (1 - x2 / 72
    * (1 - x2 / 110 * (1 - x2 / 156)))))).

Definition cos (x : float) : float :=
  let x2 := x * x in
  1 - x2 / 2 * (1 - x2 / 12 * (1 - x2 / 30 * (1 - x2 / 56
    * (1 - x2 / 90 * (1 - x2 / 132 * (1 - x2 / 182)))))).

(** For [x > 0] and a small quotient [y / x]. *)
Definition atan2 (y x : float) : float :=
  let t := y / x in
  let t2 := t * t in
  t * (1 - t2 * (1 / 3 - t2 * (1 / 5 - t2 * (1 / 7 - t2 * (1 / 9))))).

(** Leaflet's SVG renderer: the words of [className], then
    [leaflet-interactive], each added through the element's class list and
    so held once. *)
Definition svg_path (className : string) : option (list string) :=
  Some (foldl (fun cl word => classList_add word cl) []
          (String.words className ++ ["leaflet-interactive"%string])).

Definition host : Host :=
  {| Math_sin := sin; Math_cos := cos; Math_atan2 := atan2;
     toLocaleDateString := fun s => s;
     initPath := svg_path |}.
End SeriesHost.

(** The page as it loads: a count element and a legend entry for each of
    the five categories, an empty hidden result line, nothing cached. *)
Definition page : State :=
  {| pinsCache := [];
     activeFilters := all_filters;
     searchCircle := None;
     markersLayer := [];
     mapOverlays := [];
     lastId := 0;
     countEls := counts_init;
     legendItems :=
       map (fun s => {| dataset_status := s; li_classList := [] |}) categories;
     searchResult := {| rl_textContent := []; rl_classList := ["is-hidden"%string] |};
     log := [] |}.

Definition sample_pin (id : Z) (st : string) (la lo : float) : Pin :=
  {| pin_id := IdNum id; title := "Staging area"; address := Some ""%string;
     status := st; summary := Some ""%string; url := Some ""%string;
     url_text := Some "More Info"%string; pin_lat := la; pin_lng := lo;
     show_donate := Some false; show_volunteer := Some false;
     show_help := Some false; created_at := "2025-01-15T12:00:00Z" |}.

(** Two pins near New Orleans: Slidell, about 28 miles away, and Baton
    Rouge, about 75 miles away. *)
Definition slidell : Pin := sample_pin 1 "active" 30.2752%float (-89.7812)%float.
Definition baton_rouge : Pin :=
  sample_pin 2 "critical" 30.4515%float (-91.1871)%float.

(* ===================================================================== *)
(** * Vocabulary of the properties *)
(* ===================================================================== *)

(** How many cached records carry an identifier. *)
Definition occurrences (id : jsid) (pins : list Pin) : nat :=
  length (filter (fun p => pin_id p = id) pins).

(** Every drawn pin marker is dimmed exactly when its pin's status is not
    an active filter. *)
Definition dimming_matches (st : State) : Prop :=
  ∀ layer pin cl,
    layer ∈ markersLayer st → pinData layer = Some pin → el layer = Some cl →
    (DIMMED ∈ cl ↔ status pin ∉ activeFilters st).


(** What a reader sees of a link: its tag, classes, address, target and
    label. *)
Definition link_facts (e : Element)
  : string * string * option string * option string * string :=
  (tagName e, className e, href e, target e, textContent e).

(** The colour of the status dot, the first child of a popup's header. *)
Definition statusDot_color (popup : Element) : option string :=
  match children popup with
  | header :: _ =>
    match children header with
    | statusDot :: _ => backgroundColor statusDot
    | [] => None
    end
  | [] => None
  end.

(** How many pins have a status. *)
Definition count_status (k : string) (pins : list Pin) : nat :=
  length (filter (fun p => status p = k) pins).

(** Each category's count element, where the page has one, shows the number
    of cached pins of that category. *)
Definition counts_shown (st : State) : Prop :=
  ∀ k v, k ∈ categories → countEls st !! k = Some v →
         v = Count (count_status k (pinsCache st)).

(** Each legend entry is dimmed exactly when its status is not active. *)
Definition legend_matches (st : State) : Prop :=
  ∀ item, item ∈ legendItems st →
          ("legend__item--dimmed"%string ∈ li_classList item
           ↔ dataset_status item ∉ activeFilters st).

(** A layer is the marker of a pin: it carries the pin, the pin's popup and
    the options [createPinMarker] gives it. *)
Definition marker_of `{Host} (pin : Pin) (layer : Marker) : Prop :=
  pinData layer = Some pin
  ∧ popup layer = Some (createPopupContent pin)
  ∧ options layer = options (createPinMarker pin)
  ∧ m_lat layer = pin_lat pin ∧ m_lng layer = pin_lng pin.

(** The layer group holds one marker per cached pin, in cache order. *)
Definition rendered `{Host} (st : State) : Prop :=
  Forall2 marker_of (pinsCache st) (markersLayer st).

(** The links ([a] elements) in an element and below it. *)
Fixpoint links (e : Element) : list Element :=
  (if decide (tagName e = "a"%string) then [e] else [])
  ++ flat_map links (children e).

(** What a handler leaves alone when it only writes the result line and
    the log. *)
Definition same_data (st st' : State) : Prop :=
  pinsCache st' = pinsCache st
  ∧ activeFilters st' = activeFilters st
  ∧ searchCircle st' = searchCircle st
  ∧ markersLayer st' = markersLayer st
  ∧ mapOverlays st' = mapOverlays st
  ∧ lastId st' = lastId st
  ∧ countEls st' = countEls st
  ∧ legendItems st' = legendItems st.

(** The geocoder requests in a log. *)
Definition fetches (events : list Event) : list codeunits :=
  flat_map (fun e => match e with EvFetch q => [q] | _ => [] end) events.

(** Two layers that differ at most in whether their element has the
    dimmed class. *)
Definition same_but_dimmed (layer layer' : Marker) : Prop :=
  pinData layer' = pinData layer
  ∧ popup layer' = popup layer
  ∧ options layer' = options layer
  ∧ m_lat layer' = m_lat layer ∧ m_lng layer' = m_lng layer
  ∧ match el layer, el layer' with
    | Some cl, Some cl' => ∀ c, c ≠ DIMMED → (c ∈ cl' ↔ c ∈ cl)
    | None, None => True
    | _, _ => False
    end.

(** The layer the group holds for a pin once [renderPins] or [addPinToMap]
    has added it. *)
Definition drawn `{Host} (pin : Pin) : Marker :=
  set_el (initPath (mo_className (options (createPinMarker pin))))
         (bindPopup (createPopupContent pin) (createPinMarker pin)).

(* ===================================================================== *)
(** * GeoSearch: the radius filter *)
(* ===================================================================== *)

Section GeoSearch.

Context `{Host}.

Lemma findPinsInRadius_elem (lat lng r : float) (st : State) (pin : Pin) :
  pin ∈ findPinsInRadius lat lng r st ↔
  pin ∈ pinsCache st ∧
  (haversineDistance lat lng (pin_lat pin) (pin_lng pin) <=? r)%float = true.
Proof.
  unfold findPinsInRadius. rewrite list_elem_of_filter. tauto.
Qed.

Lemma findPinsInRadius_sublist (lat lng r : float) (st : State) :
  sublist (findPinsInRadius lat lng r st) (pinsCache st).
Proof. apply sublist_filter. Qed.

(** The formula, spelled out: degrees go through [toRad] before any
    trigonometric function sees them, and the radius is 3959 miles. *)
Lemma haversineDistance_formula (lat1 lng1 lat2 lng2 : float) :
  let rad deg := (deg * (Math_PI / 180))%float in
  let a :=
    (Math_sin (rad (lat2 - lat1) / 2) * Math_sin (rad (lat2 - lat1) / 2)
     + Math_cos (rad lat1) * Math_cos (rad lat2)
       * Math_sin (rad (lng2 - lng1) / 2) * Math_sin (rad (lng2 - lng1) / 2))%float in
  haversineDistance lat1 lng1 lat2 lng2 =
  (3959 * (2 * Math_atan2 (PrimFloat.sqrt a) (PrimFloat.sqrt (1 - a))))%float.
Proof. reflexivity. Qed.

End GeoSearch.

(** C1. The pins [findPinsInRadius] returns for the 50-mile search radius
    are exactly the cached pins whose haversine distance from the search
    point (Earth radius 3959 miles, angles converted to radians) is at most
    50, in cache order; the comparison is inclusive, so a distance of
    exactly 50 passes and 50.01 does not. *)
Theorem findPinsInRadius_in_range `{Host} (lat lng : float) (st : State) :
  (∀ pin,
     pin ∈ findPinsInRadius lat lng SEARCH_RADIUS_MILES st ↔
     pin ∈ pinsCache st ∧
     (haversineDistance lat lng (pin_lat pin) (pin_lng pin) <=? 50)%float = true)
  ∧ sublist (findPinsInRadius lat lng SEARCH_RADIUS_MILES st) (pinsCache st)
  ∧ (∀ lat2 lng2,
       let rad deg := (deg * (Math_PI / 180))%float in
       let a :=
         (Math_sin (rad (lat2 - lat) / 2) * Math_sin (rad (lat2 - lat) / 2)
          + Math_cos (rad lat) * Math_cos (rad lat2)
            * Math_sin (rad (lng2 - lng) / 2) * Math_sin (rad (lng2 - lng) / 2))%float in
       haversineDistance lat lng lat2 lng2
       = (3959 * (2 * Math_atan2 (PrimFloat.sqrt a) (PrimFloat.sqrt (1 - a))))%float)
  ∧ (∀ pin d,
       pin ∈ pinsCache st →
       haversineDistance lat lng (pin_lat pin) (pin_lng pin) = d →
       (d = 50%float → pin ∈ findPinsInRadius lat lng SEARCH_RADIUS_MILES st)
       ∧ (d = 50.01%float →
          pin ∉ findPinsInRadius lat lng SEARCH_RADIUS_MILES st)).
Proof.
  split; [|split; [|split]].
  - intros pin. apply findPinsInRadius_elem.
  - apply findPinsInRadius_sublist.
  - intros lat2 lng2. apply haversineDistance_formula.
  - intros pin d Hin Hd. split; intros ->.
    + apply findPinsInRadius_elem. split; [done|]. by rewrite Hd.
    + rewrite findPinsInRadius_elem, Hd. intros [_ Hle]. discriminate Hle.
Qed.

Lemma findPinsInRadius_in_range_witness :
  slidell ∈ findPinsInRadius (H := SeriesHost.host) 29.9511%float (-90.0715)%float
              SEARCH_RADIUS_MILES (with_pinsCache [slidell; baton_rouge] page)
  ∧ baton_rouge ∉ findPinsInRadius (H := SeriesHost.host) 29.9511%float
                    (-90.0715)%float SEARCH_RADIUS_MILES
                    (with_pinsCache [slidell; baton_rouge] page).
Proof.
  pose proof (findPinsInRadius_in_range (H := SeriesHost.host) 29.9511%float
                (-90.0715)%float (with_pinsCache [slidell; baton_rouge] page))
    as [Hiff _].
  split.
  - apply Hiff. split; [apply list_elem_of_here | vm_compute; reflexivity].
  - intros Hin. apply Hiff in Hin as [_ Hle]. vm_compute in Hle. discriminate Hle.
Defined.

(* ===================================================================== *)
(** * GeoSearch: input validation *)
(* ===================================================================== *)

Lemma test_zip_spec (q : codeunits) :
  test_zip q = true ↔ length q = 5 ∧ Forall (fun c => (48 ≤ c ≤ 57)%N) q.
Proof.
  unfold test_zip. rewrite andb_true_iff, Nat.eqb_eq, forallb_forall, Forall_forall.
  split; intros [Hlen Hd]; (split; [exact Hlen|]); intros c Hc.
  - apply list_elem_of_In in Hc. specialize (Hd c Hc). unfold is_digit in Hd.
    apply andb_true_iff in Hd as [?%N.leb_le ?%N.leb_le]. lia.
  - apply list_elem_of_In in Hc. specialize (Hd c Hc). unfold is_digit.
    apply andb_true_iff. split; apply N.leb_le; lia.
Qed.

Lemma log_showSearchResult message type st :
  log (showSearchResult message type st) =
  log st ++ [EvShowSearchResult message type].
Proof. reflexivity. Qed.

Lemma not_found_message_head (q : codeunits) :
  ∃ rest, not_found_message q = 90%N :: rest.
Proof. unfold not_found_message. simpl. eauto. Qed.

Section Validation.

Context `{Host}.

Lemma handleSearch_empty value reply st :
  trim value = [] →
  handleSearch value reply st =
  (Ok tt, showSearchResult (lit "Please enter a zip code") "error" st).
Proof. intros E. unfold handleSearch. rewrite E. reflexivity. Qed.

Lemma handleSearch_malformed value reply st :
  trim value ≠ [] → test_zip (trim value) = false →
  handleSearch value reply st =
  (Ok tt,
   showSearchResult (lit "Please enter a valid 5-digit zip code") "error" st).
Proof.
  intros Hne Hz. unfold handleSearch.
  rewrite bool_decide_eq_false_2 by exact Hne. rewrite Hz. reflexivity.
Qed.

Lemma handleSearch_not_found value reply st :
  test_zip (trim value) = true →
  (∃ json, reply = FetchResponse false json) ∨ reply = FetchResponse true (Some []) →
  handleSearch value reply st =
  (Ok tt,
   showSearchResult (not_found_message (trim value)) "error"
     (emit (EvFetch (trim value ++ lit ", USA"))
        (showSearchResult (lit "Searching...") "neutral" st))).
Proof.
  intros Hz Hreply. unfold handleSearch.
  destruct (trim value) as [|c q] eqn:E; [discriminate Hz|].
  rewrite bool_decide_eq_false_2 by discriminate. rewrite Hz.
  destruct Hreply as [[json ->] | ->]; reflexivity.
Qed.

End Validation.

(** C3. [handleSearch] reaches the geocoder only with a trimmed input of
    exactly five decimal digits.  An empty input and any other input are
    answered with a validation message and nothing else happens: no request
    goes out.  The two validation messages differ from the message of a
    failed lookup, whatever the zip code. *)
Theorem handleSearch_validates_first `{Host}
    (value : codeunits) (reply : GeocoderReply) (st : State) :
  let query := trim value in
  let st' := (handleSearch value reply st).2 in
  (test_zip query = true ↔
   length query = 5 ∧ Forall (fun c => (48 ≤ c ≤ 57)%N) query)
  ∧ (∀ q, EvFetch q ∈ log st' → EvFetch q ∈ log st ∨ test_zip query = true)
  ∧ (query = [] →
     handleSearch value reply st =
     (Ok tt, showSearchResult (lit "Please enter a zip code") "error" st))
  ∧ (query ≠ [] → test_zip query = false →
     handleSearch value reply st =
     (Ok tt,
      showSearchResult (lit "Please enter a valid 5-digit zip code") "error" st))
  ∧ (test_zip query = true →
     (∃ json, reply = FetchResponse false json)
     ∨ reply = FetchResponse true (Some []) →
     handleSearch value reply st =
     (Ok tt,
      showSearchResult (not_found_message query) "error"
        (emit (EvFetch (query ++ lit ", USA"))
           (showSearchResult (lit "Searching...") "neutral" st))))
  ∧ (∀ zip,
       not_found_message zip ≠ lit "Please enter a zip code"
       ∧ not_found_message zip ≠ lit "Please enter a valid 5-digit zip code").
Proof.
  intros query st'.
  split; [apply test_zip_spec|].
  split; [|split; [apply handleSearch_empty|]; split;
           [apply handleSearch_malformed|]; split;
           [apply handleSearch_not_found|]].
  - intros q Hq. destruct (test_zip query) eqn:Hz; [by right|]. left.
    subst st'. destruct (decide (query = [])) as [E|E].
    + rewrite (handleSearch_empty _ _ _ E) in Hq. cbn [snd] in Hq.
      rewrite log_showSearchResult in Hq.
      apply elem_of_app in Hq as [Hq|Hq]; [done|].
      apply list_elem_of_singleton in Hq. discriminate Hq.
    + rewrite (handleSearch_malformed _ _ _ E Hz) in Hq. cbn [snd] in Hq.
      rewrite log_showSearchResult in Hq.
      apply elem_of_app in Hq as [Hq|Hq]; [done|].
      apply list_elem_of_singleton in Hq. discriminate Hq.
  - intros zip. destruct (not_found_message_head zip) as [rest ->].
    split; discriminate.
Qed.

Lemma handleSearch_validates_first_witness :
  (handleSearch (H := SeriesHost.host) (lit "1234") FetchRejected page).2
  = showSearchResult (lit "Please enter a valid 5-digit zip code") "error" page
  ∧ (handleSearch (H := SeriesHost.host) (lit "abcde") FetchRejected page).2
    = showSearchResult (lit "Please enter a valid 5-digit zip code") "error" page
  ∧ (handleSearch (H := SeriesHost.host) (lit "   ") FetchRejected page).2
    = showSearchResult (lit "Please enter a zip code") "error" page.
Proof.
  destruct (handleSearch_validates_first (H := SeriesHost.host) (lit "1234")
              FetchRejected page) as (_ & _ & _ & H1 & _).
  destruct (handleSearch_validates_first (H := SeriesHost.host) (lit "abcde")
              FetchRejected page) as (_ & _ & _ & H2 & _).
  destruct (handleSearch_validates_first (H := SeriesHost.host) (lit "   ")
              FetchRejected page) as (_ & _ & H3 & _).
  split; [|split].
  - rewrite H1; [reflexivity | discriminate | reflexivity].
  - rewrite H2; [reflexivity | discriminate | reflexivity].
  - rewrite H3; reflexivity.
Defined.


(* ===================================================================== *)
(** * GeoSearch: the radius overlay *)
(* ===================================================================== *)

Section Overlay.

Context `{Host}.

(** Whatever the state, [drawSearchCircle] ends in a [TypeError] and changes
    nothing: [map] is a promise, so neither [map.removeLayer] nor the
    [map.addLayer] behind [addTo] exists. *)
Lemma drawSearchCircle_throws (clat clng : float) (st : State) :
  ∃ what, drawSearchCircle clat clng st = (Throw (TypeError what), st).
Proof.
  unfold drawSearchCircle, bind, get.
  destruct (searchCircle st) as [old|]; simpl; eauto.
Qed.

(** With the map itself in hand, as admin.js has it through map.js's
    synchronous [getMap] when it replaces its temporary marker, the same two
    calls do replace the overlay. *)
Lemma overlay_replaced_on_map_instance (old : Circle) (clat clng : float)
    (st : State) :
  mapOverlays st = [old] →
  ∃ drawn st',
    (removeLayer MapInstance old ;;; addTo (L_circle clat clng) MapInstance) st
    = (Ok drawn, st')
    ∧ mapOverlays st' = [drawn].
Proof.
  intros Hone. unfold bind, removeLayer, run, addTo.
  eexists _, _. split; [reflexivity|].
  cbn [mapOverlays with_mapOverlays with_lastId]. rewrite Hone.
  rewrite filter_cons_False by (intros Hne; by apply Hne).
  reflexivity.
Qed.

Lemma handleSearch_resolved value st result rest :
  test_zip (trim value) = true →
  handleSearch value (FetchResponse true (Some (result :: rest))) st =
  (Ok tt,
   showSearchResult (lit "Search failed. Please try again.") "error"
     (emit (EvConsoleError "Search error:")
        (emit (EvSetView (nr_lat result) (nr_lon result) 9)
           (emit (EvFetch (trim value ++ lit ", USA"))
              (showSearchResult (lit "Searching...") "neutral" st))))).
Proof.
  intros Hz. unfold handleSearch.
  destruct (trim value) as [|c q] eqn:E; [discriminate Hz|].
  rewrite bool_decide_eq_false_2 by discriminate. rewrite Hz. cbn [negb].
  unfold try_catch, bind at 1, run at 1.
  unfold bind at 1, geocode, bind at 1, run at 1. cbn [negb ret].
  unfold bind at 1, get. unfold bind at 1, setView, awaited_getMap, run at 1.
  unfold bind at 1.
  match goal with
  | |- context [drawSearchCircle ?a ?b ?s] =>
    destruct (drawSearchCircle_throws a b s) as [what ->]
  end.
  reflexivity.
Qed.

End Overlay.

(** C6 (the code at a successful lookup).  A valid zip code that the
    geocoder resolves pans the map and then fails inside
    [drawSearchCircle]: the search ends with "Search failed. Please try
    again.", no overlay is put on the map and [searchCircle] keeps the
    value it had. *)
Theorem handleSearch_draws_no_overlay `{Host}
    (value : codeunits) (st : State) (result : NominatimResult)
    (rest : list NominatimResult) :
  test_zip (trim value) = true →
  let st' := (handleSearch value (FetchResponse true (Some (result :: rest))) st).2 in
  (∃ what,
     drawSearchCircle (nr_lat result) (nr_lon result) st
     = (Throw (TypeError what), st))
  ∧ mapOverlays st' = mapOverlays st
  ∧ searchCircle st' = searchCircle st
  ∧ last (log st')
    = Some (EvShowSearchResult (lit "Search failed. Please try again.") "error").
Proof.
  intros Hz st'. subst st'. rewrite (handleSearch_resolved _ _ _ _ Hz).
  split; [apply drawSearchCircle_throws|].
  cbn [snd]. split; [reflexivity|]. split; [reflexivity|].
  rewrite log_showSearchResult. apply last_snoc.
Qed.

Lemma handleSearch_draws_no_overlay_witness :
  let new_orleans :=
    {| nr_lat := 29.9511%float; nr_lon := (-90.0715)%float;
       display_name := lit "New Orleans, Orleans Parish, Louisiana, 70112, United States" |} in
  let st' :=
    (handleSearch (H := SeriesHost.host) (lit " 70112 ")
       (FetchResponse true (Some [new_orleans])) page).2 in
  mapOverlays st' = [] ∧ searchCircle st' = None
  ∧ last (log st')
    = Some (EvShowSearchResult (lit "Search failed. Please try again.") "error").
Proof.
  intros new_orleans st'.
  destruct (handleSearch_draws_no_overlay (H := SeriesHost.host) (lit " 70112 ")
              page new_orleans []) as (_ & H1 & H2 & H3).
  - vm_compute. reflexivity.
  - subst st'. rewrite H1, H2, H3. repeat split.
Defined.

(* ===================================================================== *)
(** * PinStore: loading the pins *)
(* ===================================================================== *)

Lemma getAllPins_cases (reply : StoreReply) :
  getAllPins reply =
  match supabaseRequest reply with
  | Ok (Some rows) => Ok rows
  | _ => Ok []
  end.
Proof.
  unfold getAllPins. destruct (supabaseRequest reply) as [[rows|]|e]; reflexivity.
Qed.

(** C10. Whatever the store request meets, [getAllPins] returns a list and
    throws nothing; when the request throws (a rejected fetch, a status
    that is not a success, a body that does not parse) the list is empty,
    and [init] goes on with an empty cache. *)
Theorem getAllPins_never_throws `{Host} (reply : StoreReply) :
  (∃ pins, getAllPins reply = Ok pins)
  ∧ (∀ e, supabaseRequest reply = Throw e → getAllPins reply = Ok [])
  ∧ (∀ rows, supabaseRequest reply = Ok (Some rows) → getAllPins reply = Ok rows)
  ∧ (∀ st e,
       supabaseRequest reply = Throw e →
       ∃ st', init reply st = (Ok tt, st') ∧ pinsCache st' = []).
Proof.
  rewrite getAllPins_cases.
  split; [|split; [|split]].
  - destruct (supabaseRequest reply) as [[rows|]|e]; eauto.
  - intros e ->. reflexivity.
  - intros rows ->. reflexivity.
  - intros st e He. unfold init. rewrite getAllPins_cases, He.
    eexists. split; reflexivity.
Qed.

Lemma getAllPins_never_throws_witness :
  getAllPins Rejected = Ok []
  ∧ getAllPins (Response false 503 EmptyBody) = Ok []
  ∧ getAllPins (Response true 200 Unparseable) = Ok []
  ∧ getAllPins (Response true 200 (Rows [slidell])) = Ok [slidell].
Proof.
  destruct (getAllPins_never_throws (H := SeriesHost.host) Rejected)
    as (_ & H1 & _).
  destruct (getAllPins_never_throws (H := SeriesHost.host)
              (Response false 503 EmptyBody)) as (_ & H2 & _).
  destruct (getAllPins_never_throws (H := SeriesHost.host)
              (Response true 200 Unparseable)) as (_ & H3 & _).
  destruct (getAllPins_never_throws (H := SeriesHost.host)
              (Response true 200 (Rows [slidell]))) as (_ & _ & H4 & _).
  split; [|split; [|split]].
  - exact (H1 NetworkError eq_refl).
  - exact (H2 (RequestFailed 503) eq_refl).
  - exact (H3 SyntaxError eq_refl).
  - exact (H4 [slidell] eq_refl).
Defined.

(* ===================================================================== *)
(** * LiveSync: the realtime handlers *)
(* ===================================================================== *)

Lemma filter_all {A} (P : A → Prop) `{!∀ x, Decision (P x)} (l : list A) :
  Forall P l → filter P l = l.
Proof.
  induction 1 as [|x l Hx _ IH]; [reflexivity|].
  rewrite filter_cons_True by exact Hx. by rewrite IH.
Qed.

Lemma count_pin_keeps (counts : gmap string countval) (pin : Pin) (k : string) :
  is_Some (counts !! k) → is_Some (count_pin counts pin !! k).
Proof.
  intros Hk. unfold count_pin.
  destruct (get_prop counts (status pin)); [| case_decide |]; try exact Hk;
    (destruct (decide (status pin = k)) as [-> | Hne];
     [rewrite lookup_insert_eq; eauto | by rewrite lookup_insert_ne]).
Qed.

Lemma foldl_count_pin_keeps (pins : list Pin) (counts : gmap string countval)
    (k : string) :
  is_Some (counts !! k) → is_Some (foldl count_pin counts pins !! k).
Proof.
  revert counts. induction pins as [|pin pins IH]; intros counts Hk; [exact Hk|].
  simpl. apply IH, count_pin_keeps, Hk.
Qed.

(** The counts object always has its five categories. *)
Lemma tally_categories (pins : list Pin) (k : string) :
  k ∈ categories → is_Some (tally pins !! k).
Proof.
  intros Hk. apply foldl_count_pin_keeps.
  unfold categories in Hk.
  repeat (apply elem_of_cons in Hk as [-> | Hk]; [vm_compute; eauto|]).
  by apply elem_of_nil in Hk.
Qed.

(** What [updateCounts] leaves in the element for key [k]: the count of
    [k] if the counts object has that key, else what was there. *)
Lemma show_counts_lookup (counts els : gmap string countval) (k : string) :
  show_counts counts els !! k
  = (fun old => default old (counts !! k)) <$> els !! k.
Proof.
  unfold show_counts. revert k.
  apply (map_fold_weak_ind
           (fun r m => ∀ k, r !! k = (fun old => default old (m !! k)) <$> els !! k)).
  - intros k. rewrite lookup_empty. by destruct (els !! k).
  - intros i x m r Hi IH k. destruct (decide (i = k)) as [-> | Hne].
    + rewrite lookup_insert_eq. specialize (IH k). rewrite Hi in IH.
      destruct (els !! k) as [old|] eqn:E; simpl in *.
      * rewrite IH. by rewrite lookup_insert_eq.
      * by rewrite IH.
    + rewrite (lookup_insert_ne m) by exact Hne. rewrite <- IH.
      destruct (r !! i); [by rewrite lookup_insert_ne | done].
Qed.

Section LiveSync.

Context `{Host}.

Lemma pinsCache_onInsert (newPin : Pin) (st : State) :
  pinsCache (onInsert newPin st) = pinsCache st ++ [newPin].
Proof. unfold onInsert. by case_decide. Qed.

Lemma pinsCache_onUpdate (updatedPin : Pin) (st : State) :
  pinsCache (onUpdate updatedPin st) =
  match findIndex (pin_id updatedPin) (pinsCache st) with
  | Some index => <[index := updatedPin]> (pinsCache st)
  | None => pinsCache st
  end.
Proof.
  unfold onUpdate. by destruct (findIndex (pin_id updatedPin) (pinsCache st)).
Qed.

Lemma pinsCache_onDelete (deletedPin : Pin) (st : State) :
  pinsCache (onDelete deletedPin st) =
  filter (fun p => pin_id p ≠ pin_id deletedPin) (pinsCache st).
Proof. reflexivity. Qed.

Lemma countEls_onDelete (deletedPin : Pin) (st : State) :
  countEls (onDelete deletedPin st) =
  show_counts (tally (pinsCache (onDelete deletedPin st))) (countEls st).
Proof. reflexivity. Qed.

Lemma countEls_onInsert (newPin : Pin) (st : State) :
  countEls (onInsert newPin st) =
  show_counts (tally (pinsCache st ++ [newPin])) (countEls st).
Proof. unfold onInsert. by case_decide. Qed.

(** After [updateCounts] the element of a category, if the page has one,
    shows that category's entry of the tally. *)
Lemma countEls_category (pins : list Pin) (els : gmap string countval)
    (k : string) :
  k ∈ categories →
  show_counts (tally pins) els !! k
  = match els !! k with Some _ => tally pins !! k | None => None end.
Proof.
  intros Hk. rewrite show_counts_lookup.
  destruct (tally_categories pins k Hk) as [v ->]. simpl.
  by destruct (els !! k).
Qed.

End LiveSync.

(** C2 (as the code has it). The insert handler appends the carried record
    to the end of the cache whether or not its identifier is already
    cached: the number of cached records with that identifier grows by
    exactly one, and the records of other identifiers are as many as
    before. *)
Theorem onInsert_appends `{Host} (newPin : Pin) (st : State) :
  pinsCache (onInsert newPin st) = pinsCache st ++ [newPin]
  ∧ occurrences (pin_id newPin) (pinsCache (onInsert newPin st))
    = S (occurrences (pin_id newPin) (pinsCache st))
  ∧ (∀ id, id ≠ pin_id newPin →
       occurrences id (pinsCache (onInsert newPin st))
       = occurrences id (pinsCache st)).
Proof.
  rewrite pinsCache_onInsert. unfold occurrences.
  split; [reflexivity|]. split.
  - rewrite filter_app, length_app, filter_cons_True by reflexivity.
    simpl. lia.
  - intros id Hne. rewrite filter_app, length_app, filter_cons_False by congruence.
    simpl. lia.
Qed.

(** C2 fails as stated: an insert event for a cached identifier leaves two
    records with that identifier. *)
Lemma onInsert_duplicates :
  let st := with_pinsCache [slidell] page in
  let st' := onInsert (H := SeriesHost.host) slidell st in
  occurrences (pin_id slidell) (pinsCache st) = 1
  ∧ length (pinsCache st') = 2
  ∧ ¬ occurrences (pin_id slidell) (pinsCache st') = 1.
Proof.
  intros st st'. split; [|split].
  - vm_compute. reflexivity.
  - vm_compute. reflexivity.
  - vm_compute. discriminate.
Qed.

(** C5. The update handler keeps the length of the cache.  When no cached
    record has the carried identifier the cache stays as it is.  When some
    record has it, the first such record is replaced by the carried one and
    every other position keeps its record. *)
Theorem onUpdate_replaces_match `{Host} (updatedPin : Pin) (st : State) :
  let cache := pinsCache st in
  let cache' := pinsCache (onUpdate updatedPin st) in
  length cache' = length cache
  ∧ ((∀ p, p ∈ cache → pin_id p ≠ pin_id updatedPin) → cache' = cache)
  ∧ ((∃ p, p ∈ cache ∧ pin_id p = pin_id updatedPin) →
     ∃ i old,
       cache !! i = Some old ∧ pin_id old = pin_id updatedPin
       ∧ (∀ j q, cache !! j = Some q → j < i → pin_id q ≠ pin_id updatedPin)
       ∧ cache' = <[i := updatedPin]> cache
       ∧ cache' !! i = Some updatedPin
       ∧ (∀ j, j ≠ i → cache' !! j = cache !! j)).
Proof.
  intros cache cache'. subst cache'. rewrite pinsCache_onUpdate. fold cache.
  unfold findIndex.
  destruct (list_find (fun p => pin_id p = pin_id updatedPin) cache)
    as [[i old]|] eqn:Hfind; simpl.
  - apply list_find_Some in Hfind as (Hi & Hold & Hfirst).
    split; [apply length_insert|]. split.
    + intros Hnone. exfalso.
      apply (Hnone old); [by eapply list_elem_of_lookup_2 | exact Hold].
    + intros _. exists i, old. repeat split; try done.
      * apply list_lookup_insert_eq. by eapply lookup_lt_Some.
      * intros j Hj. by apply list_lookup_insert_ne.
  - apply list_find_None in Hfind. rewrite Forall_forall in Hfind.
    split; [reflexivity|]. split; [reflexivity|].
    intros (p & Hp & Hid). by destruct (Hfind p Hp).
Qed.

Lemma onUpdate_replaces_match_witness :
  let moved := sample_pin 2 "past" 30.5%float (-91.0)%float in
  let unknown := sample_pin 3 "past" 30.5%float (-91.0)%float in
  let st := with_pinsCache [slidell; baton_rouge] page in
  pinsCache (onUpdate (H := SeriesHost.host) unknown st) = [slidell; baton_rouge]
  ∧ pinsCache (onUpdate (H := SeriesHost.host) moved st) !! 1 = Some moved
  ∧ pinsCache (onUpdate (H := SeriesHost.host) moved st) !! 0 = Some slidell.
Proof.
  intros moved unknown st.
  destruct (onUpdate_replaces_match (H := SeriesHost.host) unknown st)
    as (_ & Habsent & _).
  destruct (onUpdate_replaces_match (H := SeriesHost.host) moved st)
    as (_ & _ & Hpresent).
  split; [|split].
  - apply Habsent. intros p Hp. subst st. cbn [pinsCache with_pinsCache] in Hp.
    repeat (apply elem_of_cons in Hp as [-> | Hp]; [discriminate|]).
    by apply elem_of_nil in Hp.
  - destruct Hpresent as (i & old & Hi & Hold & _ & _ & Hnew & _).
    { exists baton_rouge. split; [|reflexivity].
      subst st. cbn [pinsCache with_pinsCache]. set_solver. }
    destruct i as [|[|i]]; [| exact Hnew |]; simpl in Hi.
    + injection Hi as <-. discriminate Hold.
    + by destruct i.
  - destruct Hpresent as (i & old & Hi & Hold & _ & _ & _ & Hothers).
    { exists baton_rouge. split; [|reflexivity].
      subst st. cbn [pinsCache with_pinsCache]. set_solver. }
    destruct i as [|[|i]]; simpl in Hi.
    + injection Hi as <-. discriminate Hold.
    + by rewrite Hothers.
    + by destruct i.
Defined.

(** C7 (as the code has it). Insert followed by delete for the same
    identifier leaves no cached record with that identifier.  When the
    identifier was not cached before the pair, the cache is what it was, so
    the counts object computed from it and the count shown for each of the
    five categories are those computed before the pair. *)
Theorem insert_then_delete `{Host} (newPin deletedPin : Pin) (st : State) :
  pin_id deletedPin = pin_id newPin →
  let st' := onDelete deletedPin (onInsert newPin st) in
  (∀ p, p ∈ pinsCache st' → pin_id p ≠ pin_id newPin)
  ∧ ((∀ p, p ∈ pinsCache st → pin_id p ≠ pin_id newPin) →
     pinsCache st' = pinsCache st
     ∧ tally (pinsCache st') = tally (pinsCache st)
     ∧ (∀ k, k ∈ categories →
          countEls st' !! k = countEls (updateCounts st) !! k)).
Proof.
  intros Hid st'.
  assert (Hcache : pinsCache st'
                   = filter (fun p => pin_id p ≠ pin_id newPin) (pinsCache st)).
  { subst st'. rewrite pinsCache_onDelete, pinsCache_onInsert, Hid.
    rewrite filter_app, filter_cons_False by (intros Hne; by apply Hne).
    apply app_nil_r. }
  split.
  - intros p Hp. rewrite Hcache in Hp.
    by apply list_elem_of_filter in Hp as [Hne _].
  - intros Hfresh.
    assert (Hsame : pinsCache st' = pinsCache st).
    { rewrite Hcache. apply filter_all. by apply Forall_forall. }
    split; [exact Hsame|]. split; [by rewrite Hsame|].
    intros k Hk. subst st'.
    rewrite countEls_onDelete, Hsame, countEls_onInsert.
    cbn [updateCounts countEls with_countEls].
    rewrite !countEls_category by exact Hk.
    destruct (countEls st !! k); [|reflexivity].
    by destruct (tally_categories (pinsCache st ++ [newPin]) k Hk) as [v ->].
Qed.

Lemma insert_then_delete_witness :
  let st := with_pinsCache [slidell] page in
  let st' :=
    onDelete baton_rouge
      (onInsert (H := SeriesHost.host) baton_rouge st) in
  pinsCache st' = pinsCache st ∧ tally (pinsCache st') = tally (pinsCache st).
Proof.
  intros st st'.
  destruct (insert_then_delete (H := SeriesHost.host) baton_rouge baton_rouge st
              eq_refl) as [_ Hzero].
  destruct Hzero as (Hcache & Htally & _).
  - intros p Hp. subst st. cbn [pinsCache with_pinsCache] in Hp.
    apply elem_of_cons in Hp as [-> | Hp]; [discriminate|].
    by apply elem_of_nil in Hp.
  - split; [exact Hcache | exact Htally].
Defined.

(** C7 fails as stated: when the identifier is already cached, the pair
    removes the record that was there, and the count of its category
    drops. *)
Lemma insert_then_delete_drops_cached :
  let st := updateCounts (with_pinsCache [baton_rouge] page) in
  let st' :=
    onDelete baton_rouge
      (onInsert (H := SeriesHost.host) baton_rouge st) in
  tally (pinsCache st) !! "critical"%string = Some (Count 1)
  ∧ tally (pinsCache st') !! "critical"%string = Some (Count 0)
  ∧ countEls st !! "critical"%string = Some (Count 1)
  ∧ countEls st' !! "critical"%string = Some (Count 0)
  ∧ tally (pinsCache st') ≠ tally (pinsCache st).
Proof.
  intros st st'.
  assert (H1 : tally (pinsCache st) !! "critical"%string = Some (Count 1))
    by (vm_compute; reflexivity).
  assert (H0 : tally (pinsCache st') !! "critical"%string = Some (Count 0))
    by (vm_compute; reflexivity).
  split; [exact H1|]. split; [exact H0|].
  split; [vm_compute; reflexivity|]. split; [vm_compute; reflexivity|].
  intros Heq. rewrite Heq, H1 in H0. discriminate H0.
Qed.

(* ===================================================================== *)
(** * FilterState: toggling and resetting the legend filters *)
(* ===================================================================== *)

Lemma classList_remove_spec (tok c : string) (cl : list string) :
  c ∈ classList_remove tok cl ↔ c ≠ tok ∧ c ∈ cl.
Proof. unfold classList_remove. by rewrite list_elem_of_filter. Qed.

Lemma classList_add_spec (tok c : string) (cl : list string) :
  c ∈ classList_add tok cl ↔ c = tok ∨ c ∈ cl.
Proof.
  unfold classList_add. case_decide as Hin.
  - split; [by right | by intros [-> | ?]].
  - rewrite elem_of_app, list_elem_of_singleton. tauto.
Qed.

Lemma applyFilter_layer_dimmed (active : gset string) (layer : Marker)
    (pin : Pin) (cl : list string) :
  pinData (applyFilter_layer active layer) = Some pin →
  el (applyFilter_layer active layer) = Some cl →
  (DIMMED ∈ cl ↔ status pin ∉ active).
Proof.
  unfold applyFilter_layer.
  destruct (pinData layer) as [pin0|] eqn:Hpin; [|by rewrite Hpin].
  destruct (el layer) as [cl0|] eqn:Hel; [|by rewrite Hel].
  case_decide as Hact; cbn [pinData el set_el]; rewrite Hpin;
    intros [= <-] [= <-].
  - rewrite classList_remove_spec. split; [by intros [? _] | done].
  - rewrite classList_add_spec. split; [done | by left].
Qed.

Lemma clearFilter_layer_undimmed (layer : Marker) (cl : list string) :
  el (clearFilter_layer layer) = Some cl → DIMMED ∉ cl.
Proof.
  unfold clearFilter_layer. destruct (el layer) as [cl0|] eqn:Hel.
  - cbn [el set_el]. intros [= <-]. rewrite classList_remove_spec. by intros [? _].
  - by rewrite Hel.
Qed.

Lemma toggleFilter_active (category : string) (st : State) (c : string) :
  c ∈ activeFilters (toggleFilter category st) ↔
  (if decide (c = category) then c ∉ activeFilters st else c ∈ activeFilters st).
Proof.
  unfold toggleFilter.
  destruct (decide (category ∈ activeFilters st)) as [Hin|Hout];
    cbn [activeFilters applyFilter with_markersLayer updateFilterUI
         with_legendItems with_activeFilters];
    (destruct (decide (c = category)) as [-> | Hne];
     set_unfold; naive_solver).
Qed.

Lemma toggleFilter_markers (category : string) (st : State) :
  markersLayer (toggleFilter category st) =
  map (applyFilter_layer (activeFilters (toggleFilter category st)))
      (markersLayer st).
Proof. unfold toggleFilter. by case_decide. Qed.

Lemma all_filters_spec (c : string) : c ∈ all_filters ↔ c ∈ categories.
Proof. unfold all_filters. apply elem_of_list_to_set. Qed.

(** C4 (as the code has it). A filter mutation changes neither the pin
    cache nor the counts.  A toggle flips the membership of its category
    and leaves every drawn marker dimmed exactly when its pin's status is
    not active.  A reset makes the five categories active and leaves no
    drawn marker dimmed, which is the same thing for every pin with one of
    the five statuses. *)
Theorem filter_mutations_frame (st : State) :
  (∀ category,
     let st' := toggleFilter category st in
     pinsCache st' = pinsCache st
     ∧ countEls st' = countEls st
     ∧ (∀ c, c ∈ activeFilters st' ↔
             (if decide (c = category) then c ∉ activeFilters st
              else c ∈ activeFilters st))
     ∧ dimming_matches st')
  ∧ (let st' := resetFilters st in
     pinsCache st' = pinsCache st
     ∧ countEls st' = countEls st
     ∧ activeFilters st' = all_filters
     ∧ (∀ layer cl,
          layer ∈ markersLayer st' → el layer = Some cl → DIMMED ∉ cl)
     ∧ (∀ layer pin cl,
          layer ∈ markersLayer st' → pinData layer = Some pin →
          el layer = Some cl → status pin ∈ categories →
          (DIMMED ∈ cl ↔ status pin ∉ activeFilters st'))).
Proof.
  split.
  - intros category st'.
    split; [subst st'; unfold toggleFilter; by case_decide|].
    split; [subst st'; unfold toggleFilter; by case_decide|].
    split; [apply toggleFilter_active|].
    intros layer pin cl Hin Hpin Hel. subst st'.
    rewrite toggleFilter_markers in Hin.
    apply list_elem_of_fmap in Hin as (layer0 & -> & _).
    by eapply applyFilter_layer_dimmed.
  - intros st'. split; [reflexivity|]. split; [reflexivity|].
    split; [reflexivity|].
    assert (Hclear : ∀ layer cl,
               layer ∈ markersLayer st' → el layer = Some cl → DIMMED ∉ cl).
    { intros layer cl Hin Hel. subst st'.
      cbn [resetFilters markersLayer clearFilter with_markersLayer
           updateFilterUI with_legendItems with_activeFilters] in Hin.
      apply list_elem_of_fmap in Hin as (layer0 & -> & _).
      by eapply clearFilter_layer_undimmed. }
    split; [exact Hclear|].
    intros layer pin cl Hin Hpin Hel Hcat. split.
    + intros Hdim. by destruct (Hclear layer cl Hin Hel).
    + intros Hout. destruct Hout. by apply all_filters_spec.
Qed.

(** C4 fails as stated at a reset: a marker whose pin has a status outside
    the five categories ends undimmed although its status is not active. *)
Lemma resetFilters_undims_unrecognised :
  let flood := sample_pin 7 "flood" 30.0%float (-90.0)%float in
  let st :=
    resetFilters
      (toggleFilter "past" (onInsert (H := SeriesHost.host) flood page)) in
  map (fun layer => (status <$> pinData layer, el layer)) (markersLayer st)
  = [(Some "flood"%string,
      Some ["pin-marker--pulse"; "pin-marker--flood"; "leaflet-interactive"]%string)]
  ∧ ¬ dimming_matches st.
Proof.
  intros flood st.
  assert (Hlayers :
    map (fun layer => (status <$> pinData layer, el layer)) (markersLayer st)
    = [(Some "flood"%string,
        Some ["pin-marker--pulse"; "pin-marker--flood"; "leaflet-interactive"]%string)])
    by (vm_compute; reflexivity).
  split; [exact Hlayers|].
  intros Hmatch. unfold dimming_matches in Hmatch.
  destruct (markersLayer st) as [|layer [|]] eqn:E; try discriminate Hlayers.
  injection Hlayers as Hstatus Hel.
  destruct (pinData layer) as [pin|] eqn:Hpin; [|discriminate Hstatus].
  injection Hstatus as Hstatus.
  specialize (Hmatch layer pin _ (list_elem_of_here _ _) Hpin Hel).
  assert (Hdim : DIMMED ∈ ["pin-marker--pulse"; "pin-marker--flood";
                           "leaflet-interactive"]%string).
  { apply Hmatch. rewrite Hstatus. subst st.
    cbn [resetFilters activeFilters clearFilter with_markersLayer
         updateFilterUI with_legendItems with_activeFilters].
    rewrite all_filters_spec. unfold categories.
    intros Hin. repeat (apply elem_of_cons in Hin as [Hin | Hin]; [discriminate|]).
    by apply elem_of_nil in Hin. }
  unfold DIMMED in Hdim.
  repeat (apply elem_of_cons in Hdim as [Hdim | Hdim]; [discriminate|]).
  by apply elem_of_nil in Hdim.
Qed.

Lemma filter_mutations_frame_witness :
  let st :=
    onInsert (H := SeriesHost.host) baton_rouge
      (onInsert (H := SeriesHost.host) slidell page) in
  dimming_matches (toggleFilter "critical" st)
  ∧ pinsCache (toggleFilter "critical" st) = pinsCache st
  ∧ pinsCache (resetFilters (toggleFilter "critical" st)) = pinsCache st.
Proof.
  intros st.
  destruct (filter_mutations_frame st) as [Htoggle _].
  destruct (Htoggle "critical"%string) as (Hcache & _ & _ & Hdim).
  destruct (filter_mutations_frame (toggleFilter "critical" st))
    as [_ (Hcache' & _)].
  split; [exact Hdim|]. split; [exact Hcache|].
  by rewrite Hcache', Hcache.
Defined.

(* ===================================================================== *)
(** * Rendering: popups and marker styling *)
(* ===================================================================== *)

Section Rendering.

Context `{Host}.



(** Statuses that are neither a category nor a name every object inherits
    do fall back to the [active] entry. *)
Lemma status_entry_fallback (s : string) :
  s ∉ categories → s ∉ Object_prototype_keys →
  status_entry s = Own PIN_STATUS.active.
Proof.
  intros Hcat Hproto. unfold status_entry, get_prop.
  assert (Hnone : PIN_STATUS.table !! s = None).
  { unfold PIN_STATUS.table, categories in *.
    repeat (rewrite lookup_insert_ne
              by (intros <-; apply Hcat; set_solver)).
    apply lookup_empty. }
  rewrite Hnone. by rewrite decide_False by exact Hproto.
Qed.

Lemma fallback_colors (pin : Pin) :
  status pin ∉ categories → status pin ∉ Object_prototype_keys →
  mo_fillColor (options (createPinMarker pin)) = Some (color PIN_STATUS.active)
  ∧ statusDot_color (createPopupContent pin) = Some (color PIN_STATUS.active).
Proof.
  intros Hcat Hproto. unfold createPinMarker, createPopupContent.
  rewrite (status_entry_fallback _ Hcat Hproto). split; [reflexivity|].
  destruct (truthy (address pin)), (truthy (summary pin)),
    (is_true (show_donate pin) || is_true (show_volunteer pin)
     || is_true (show_help pin)); reflexivity.
Qed.

End Rendering.



(** C9 (the code at a status that names an inherited property). For the
    status "constructor", which is none of the five categories, the table
    lookup finds [Object] on the prototype chain, the [||] fallback is not
    taken, and neither the marker nor the popup's status dot gets the
    default entry's colour: both are left without a colour. *)
Theorem inherited_status_gets_no_fallback `{Host} (pin : Pin) :
  status pin = "constructor"%string →
  (status pin ∉ categories)
  ∧ status_entry (status pin) = Inherited
  ∧ mo_fillColor (options (createPinMarker pin)) = None
  ∧ statusDot_color (createPopupContent pin) = None
  ∧ mo_fillColor (options (createPinMarker pin))
    ≠ Some (color PIN_STATUS.active).
Proof.
  intros Hs.
  assert (Hentry : status_entry (status pin) = Inherited)
    by (rewrite Hs; vm_compute; reflexivity).
  split.
  { rewrite Hs. unfold categories. intros Hin.
    repeat (apply elem_of_cons in Hin as [Hin | Hin]; [discriminate|]).
    by apply elem_of_nil in Hin. }
  split; [exact Hentry|].
  assert (Hfill : mo_fillColor (options (createPinMarker pin)) = None)
    by (unfold createPinMarker; rewrite Hentry; reflexivity).
  split; [exact Hfill|]. split; [|by rewrite Hfill].
  unfold createPopupContent. rewrite Hentry.
  destruct (truthy (address pin)), (truthy (summary pin)),
    (is_true (show_donate pin) || is_true (show_volunteer pin)
     || is_true (show_help pin)); reflexivity.
Qed.

Lemma inherited_status_gets_no_fallback_witness :
  let odd := sample_pin 9 "constructor" 30.0%float (-90.0)%float in
  mo_fillColor (options (createPinMarker odd)) = None
  ∧ statusDot_color (createPopupContent (H := SeriesHost.host) odd) = None.
Proof.
  intros odd.
  destruct (inherited_status_gets_no_fallback (H := SeriesHost.host) odd eq_refl)
    as (_ & _ & Hfill & Hdot & _).
  split; [exact Hfill | exact Hdot].
Defined.


(* ===================================================================== *)
(** * Counts by status *)
(* ===================================================================== *)

Lemma count_status_cons (k : string) (pin : Pin) (pins : list Pin) :
  count_status k (pin :: pins)
  = (if decide (status pin = k) then 1 else 0) + count_status k pins.
Proof.
  unfold count_status. destruct (decide (status pin = k)) as [E|E].
  - by rewrite filter_cons_True.
  - by rewrite filter_cons_False.
Qed.

Lemma count_pin_lookup (counts : gmap string countval) (pin : Pin)
    (k : string) (n : nat) :
  counts !! k = Some (Count n) →
  count_pin counts pin !! k
  = Some (Count ((if decide (status pin = k) then 1 else 0) + n)).
Proof.
  intros Hk. unfold count_pin, get_prop.
  destruct (decide (status pin = k)) as [-> | Hne].
  - rewrite Hk. by rewrite lookup_insert_eq.
  - destruct (counts !! status pin) as [v|].
    + by rewrite lookup_insert_ne.
    + destruct (decide (status pin ∈ Object_prototype_keys)); [|exact Hk].
      destruct (decide (status pin = "__proto__"%string)); [exact Hk|].
      by rewrite lookup_insert_ne.
Qed.

Lemma foldl_count_pin_lookup (pins : list Pin) (counts : gmap string countval)
    (k : string) (n : nat) :
  counts !! k = Some (Count n) →
  foldl count_pin counts pins !! k = Some (Count (n + count_status k pins)).
Proof.
  revert counts n. induction pins as [|pin pins IH]; intros counts n Hk.
  - simpl. rewrite Hk. do 2 f_equal. unfold count_status. simpl. lia.
  - simpl. rewrite (IH _ _ (count_pin_lookup _ pin _ _ Hk)).
    rewrite count_status_cons. do 2 f_equal. lia.
Qed.

Lemma counts_init_category (k : string) :
  k ∈ categories → counts_init !! k = Some (Count 0).
Proof.
  intros Hk. unfold categories in Hk.
  repeat (apply elem_of_cons in Hk as [-> | Hk]; [vm_compute; reflexivity|]).
  by apply elem_of_nil in Hk.
Qed.

Lemma show_counts_twice (counts els : gmap string countval) :
  show_counts counts (show_counts counts els) = show_counts counts els.
Proof.
  apply map_eq. intros k. rewrite !show_counts_lookup.
  destruct (els !! k) as [old|]; [|reflexivity]. simpl.
  by destruct (counts !! k).
Qed.

Lemma tally_categories_count (pins : list Pin) (k : string) :
  k ∈ categories → tally pins !! k = Some (Count (count_status k pins)).
Proof.
  intros Hk. unfold tally.
  by rewrite (foldl_count_pin_lookup pins _ k 0 (counts_init_category k Hk)).
Qed.

(** X1. The counts object that [updateCounts] builds holds, for each of the
    five categories, the number of cached pins with that status: pins with
    any other status, recognised by JavaScript as a property name or not,
    change none of the five. *)
Theorem tally_counts_each_category (pins : list Pin) (k : string) :
  k ∈ categories →
  tally pins !! k = Some (Count (count_status k pins)).
Proof.
  intros Hk. unfold tally.
  rewrite (foldl_count_pin_lookup pins _ k 0 (counts_init_category k Hk)).
  reflexivity.
Qed.

Lemma tally_counts_each_category_witness :
  tally [slidell; baton_rouge; sample_pin 5 "constructor" 30%float 30%float;
         sample_pin 6 "critical" 30%float 30%float] !! "critical"%string
  = Some (Count 2).
Proof.
  rewrite tally_counts_each_category.
  - reflexivity.
  - unfold categories. apply list_elem_of_here.
Defined.

(** X2. After [updateCounts] every category's count element that the page
    has shows the number of cached pins of that category; the page's set of
    count elements is the same as before; and a second [updateCounts]
    changes nothing. *)
Theorem updateCounts_shows_counts (st : State) :
  counts_shown (updateCounts st)
  ∧ dom (countEls (updateCounts st)) = dom (countEls st)
  ∧ updateCounts (updateCounts st) = updateCounts st.
Proof.
  split; [|split].
  - intros k v Hk. cbn [updateCounts countEls pinsCache with_countEls].
    rewrite show_counts_lookup, (tally_categories_count _ _ Hk).
    destruct (countEls st !! k); simpl; congruence.
  - apply set_eq. intros k. rewrite !elem_of_dom.
    cbn [updateCounts countEls with_countEls]. rewrite show_counts_lookup.
    destruct (countEls st !! k); simpl; split; intros [? ?]; eauto; discriminate.
  - unfold updateCounts. cbn [pinsCache countEls with_countEls].
    by rewrite show_counts_twice.
Qed.

(* ===================================================================== *)
(** * The legend *)
(* ===================================================================== *)

Lemma updateFilterUI_legend (st : State) : legend_matches (updateFilterUI st).
Proof.
  intros item Hitem.
  cbn [updateFilterUI legendItems activeFilters with_legendItems] in *.
  apply list_elem_of_fmap in Hitem as (item0 & -> & _).
  case_decide as Hact; cbn [li_classList dataset_status].
  - rewrite classList_remove_spec. split; [by intros [? _] | done].
  - rewrite classList_add_spec. split; [done | by left].
Qed.

(** X3. After a toggle and after a reset every legend entry is dimmed
    exactly when its status is not an active filter, and the entries keep
    their statuses and their order. *)
Theorem legend_follows_filters (st : State) :
  (∀ category,
     legend_matches (toggleFilter category st)
     ∧ map dataset_status (legendItems (toggleFilter category st))
       = map dataset_status (legendItems st))
  ∧ legend_matches (resetFilters st)
  ∧ map dataset_status (legendItems (resetFilters st))
    = map dataset_status (legendItems st).
Proof.
  assert (Hstatus : ∀ st0,
            map dataset_status (legendItems (updateFilterUI st0))
            = map dataset_status (legendItems st0)).
  { intros st0. cbn [updateFilterUI legendItems with_legendItems].
    rewrite map_map. apply map_ext. intros item. by case_decide. }
  split; [|split].
  - intros category. unfold toggleFilter. split.
    + intros item Hitem. cbn [applyFilter legendItems activeFilters with_markersLayer] in *.
      by apply updateFilterUI_legend.
    + cbn [applyFilter legendItems with_markersLayer]. rewrite Hstatus.
      by case_decide.
  - intros item Hitem. unfold resetFilters in *.
    cbn [clearFilter legendItems activeFilters with_markersLayer] in *.
    by apply updateFilterUI_legend.
  - unfold resetFilters. cbn [clearFilter legendItems with_markersLayer].
    by rewrite Hstatus.
Qed.

(** X4. Toggling the same category twice gives back the active set there
    was, whatever the category. *)
Theorem toggleFilter_twice (category : string) (st : State) :
  activeFilters (toggleFilter category (toggleFilter category st))
  = activeFilters st.
Proof.
  apply set_eq. intros c. rewrite !toggleFilter_active.
  destruct (decide (c = category)) as [-> | Hne].
  - rewrite toggleFilter_active. rewrite decide_True by reflexivity.
    split; [apply dec_stable | tauto].
  - by rewrite toggleFilter_active, decide_False.
Qed.

(* ===================================================================== *)
(** * Markers: dimming, adding and removing *)
(* ===================================================================== *)

Lemma classList_remove_twice (tok : string) (cl : list string) :
  classList_remove tok (classList_remove tok cl) = classList_remove tok cl.
Proof.
  unfold classList_remove. apply filter_all, Forall_forall.
  intros c Hc. by apply list_elem_of_filter in Hc as [? _].
Qed.

Lemma classList_add_twice (tok : string) (cl : list string) :
  classList_add tok (classList_add tok cl) = classList_add tok cl.
Proof.
  unfold classList_add. destruct (decide (tok ∈ cl)) as [Hin|Hout].
  - by rewrite decide_True.
  - rewrite decide_True; [done|]. apply elem_of_app. right. apply list_elem_of_here.
Qed.

Lemma applyFilter_layer_twice (active : gset string) (layer : Marker) :
  applyFilter_layer active (applyFilter_layer active layer)
  = applyFilter_layer active layer.
Proof.
  unfold applyFilter_layer.
  destruct (pinData layer) as [pin|] eqn:Hpin; [|by rewrite Hpin].
  destruct (el layer) as [cl|] eqn:Hel; [|by rewrite Hpin, Hel].
  destruct (decide (status pin ∈ active)) as [Hact|Hact];
    cbn [pinData el set_el]; rewrite Hpin.
  - rewrite decide_True by exact Hact. unfold set_el. cbn.
    by rewrite classList_remove_twice.
  - rewrite decide_False by exact Hact. unfold set_el. cbn.
    by rewrite classList_add_twice.
Qed.

Lemma clearFilter_layer_twice (layer : Marker) :
  clearFilter_layer (clearFilter_layer layer) = clearFilter_layer layer.
Proof.
  unfold clearFilter_layer. destruct (el layer) as [cl|] eqn:Hel.
  - cbn [el set_el]. unfold set_el. cbn. by rewrite classList_remove_twice.
  - by rewrite Hel.
Qed.

Lemma applyFilter_layer_same (active : gset string) (layer : Marker) :
  same_but_dimmed layer (applyFilter_layer active layer).
Proof.
  unfold same_but_dimmed, applyFilter_layer.
  destruct (pinData layer) as [pin|] eqn:Hpin.
  - destruct (el layer) as [cl|] eqn:Hel.
    + case_decide; cbn [pinData popup options m_lat m_lng el set_el];
        repeat (split; [done|]); intros c Hc.
      * rewrite classList_remove_spec. tauto.
      * rewrite classList_add_spec. tauto.
    + rewrite Hpin, Hel. by repeat split.
  - rewrite Hpin. repeat (split; [done|]). by destruct (el layer).
Qed.

Lemma clearFilter_layer_same (layer : Marker) :
  same_but_dimmed layer (clearFilter_layer layer).
Proof.
  unfold same_but_dimmed, clearFilter_layer.
  destruct (el layer) as [cl|] eqn:Hel.
  - cbn [pinData popup options m_lat m_lng el set_el].
    repeat (split; [done|]). intros c Hc. rewrite classList_remove_spec. tauto.
  - rewrite Hel. by repeat split.
Qed.

(** X5. [applyFilter] and [clearFilter] keep every layer of the group in
    its place with its pin, popup, options and position, give no element to
    a layer that has none, and in a layer's class list add or remove
    nothing but the dimmed class; the cache, the active set and the counts
    are not touched. *)
Theorem filters_change_only_dimming (active : gset string) (st : State) :
  Forall2 same_but_dimmed (markersLayer st) (markersLayer (applyFilter active st))
  ∧ Forall2 same_but_dimmed (markersLayer st) (markersLayer (clearFilter st))
  ∧ pinsCache (applyFilter active st) = pinsCache st
  ∧ activeFilters (applyFilter active st) = activeFilters st
  ∧ countEls (applyFilter active st) = countEls st
  ∧ pinsCache (clearFilter st) = pinsCache st
  ∧ activeFilters (clearFilter st) = activeFilters st
  ∧ countEls (clearFilter st) = countEls st.
Proof.
  split; [|split; [|by repeat split]].
  - cbn [applyFilter markersLayer with_markersLayer].
    apply Forall2_fmap_r, Forall_Forall2_diag, Forall_forall.
    intros layer _. apply applyFilter_layer_same.
  - cbn [clearFilter markersLayer with_markersLayer].
    apply Forall2_fmap_r, Forall_Forall2_diag, Forall_forall.
    intros layer _. apply clearFilter_layer_same.
Qed.

(** X6. Applying the same filter twice is the same as applying it once, and
    so is clearing twice. *)
Theorem filters_idempotent (active : gset string) (st : State) :
  applyFilter active (applyFilter active st) = applyFilter active st
  ∧ clearFilter (clearFilter st) = clearFilter st.
Proof.
  split.
  - unfold applyFilter. cbn [markersLayer with_markersLayer]. unfold with_markersLayer.
    cbn. f_equal. rewrite map_map. apply map_ext. intros layer.
    apply applyFilter_layer_twice.
  - unfold clearFilter. cbn [markersLayer with_markersLayer]. unfold with_markersLayer.
    cbn. f_equal. rewrite map_map. apply map_ext. intros layer.
    apply clearFilter_layer_twice.
Qed.

Section Markers.

Context `{Host}.

Lemma carries_drawn (pin : Pin) : carries (pin_id pin) (drawn pin) = true.
Proof. unfold carries, drawn. cbn. by apply bool_decide_eq_true. Qed.

Lemma markersLayer_addPinToMap (pin : Pin) (st : State) :
  markersLayer (addPinToMap pin st) = markersLayer st ++ [drawn pin].
Proof. reflexivity. Qed.

Lemma foldl_addLayer (pins : list Pin) (layers : list Marker) :
  foldl (fun layers pin =>
           addLayer (bindPopup (createPopupContent pin) (createPinMarker pin)) layers)
        layers pins
  = layers ++ map drawn pins.
Proof.
  revert layers. induction pins as [|pin pins IH]; intros layers; simpl.
  - by rewrite app_nil_r.
  - rewrite IH. unfold addLayer. by rewrite <- app_assoc.
Qed.

Lemma markersLayer_renderPins (pins : list Pin) (st : State) :
  markersLayer (renderPins pins st) = map drawn pins.
Proof.
  unfold renderPins. cbn [markersLayer with_markersLayer].
  by rewrite foldl_addLayer.
Qed.

Lemma marker_of_drawn (pin : Pin) : marker_of pin (drawn pin).
Proof. by repeat split. Qed.

Lemma marker_of_same (pin : Pin) (layer layer' : Marker) :
  same_but_dimmed layer layer' → marker_of pin layer → marker_of pin layer'.
Proof.
  intros (Hp & Hpop & Hopt & Hlat & Hlng & _) (? & ? & ? & ? & ?).
  unfold marker_of. rewrite Hp, Hpop, Hopt, Hlat, Hlng. by repeat split.
Qed.

Lemma Forall2_marker_of_applyFilter (active : gset string) (pins : list Pin)
    (layers : list Marker) :
  Forall2 marker_of pins layers →
  Forall2 marker_of pins (map (applyFilter_layer active) layers).
Proof.
  intros Hr. apply Forall2_fmap_r.
  eapply Forall2_impl; [exact Hr|].
  intros pin layer. apply marker_of_same, applyFilter_layer_same.
Qed.

Lemma Forall2_marker_of_drawn (pins : list Pin) :
  Forall2 marker_of pins (map drawn pins).
Proof.
  apply Forall2_fmap_r, Forall_Forall2_diag, Forall_forall.
  intros pin _. apply marker_of_drawn.
Qed.

Lemma Forall2_marker_of_remove (id : jsid) (pins : list Pin)
    (layers : list Marker) :
  Forall2 marker_of pins layers →
  Forall2 marker_of
    (filter (fun p => pin_id p ≠ id) pins)
    (filter (fun layer => carries id layer = false) layers).
Proof.
  induction 1 as [|pin layer pins layers Hm _ IH]; [constructor|].
  assert (Hc : carries id layer = bool_decide (pin_id pin = id)).
  { unfold carries. destruct Hm as (-> & _). reflexivity. }
  destruct (decide (pin_id pin = id)) as [E|E].
  - rewrite filter_cons_False by (intros Hne; by apply Hne).
    rewrite filter_cons_False; [exact IH|].
    rewrite Hc, bool_decide_eq_true_2 by exact E. discriminate.
  - rewrite filter_cons_True by exact E.
    rewrite filter_cons_True; [by constructor|].
    rewrite Hc. by apply bool_decide_eq_false_2.
Qed.

Lemma rendered_onInsert (newPin : Pin) (st : State) :
  rendered st → rendered (onInsert newPin st).
Proof.
  unfold rendered. intros Hr. rewrite pinsCache_onInsert.
  assert (Hall : Forall2 marker_of (pinsCache st ++ [newPin])
                   (markersLayer st ++ [drawn newPin])).
  { apply Forall2_app; [exact Hr|].
    constructor; [apply marker_of_drawn | constructor]. }
  unfold onInsert. case_decide.
  - exact Hall.
  - cbn [applyFilter markersLayer with_markersLayer updateCounts with_countEls
         addPinToMap with_pinsCache].
    by apply Forall2_marker_of_applyFilter.
Qed.

Lemma rendered_onUpdate (updatedPin : Pin) (st : State) :
  rendered (onUpdate updatedPin st).
Proof.
  unfold rendered. rewrite pinsCache_onUpdate. unfold onUpdate.
  destruct (findIndex (pin_id updatedPin) (pinsCache st)) as [i|];
    cbn [applyFilter markersLayer with_markersLayer updateCounts with_countEls
         pinsCache with_pinsCache];
    rewrite markersLayer_renderPins;
    apply Forall2_marker_of_applyFilter, Forall2_marker_of_drawn.
Qed.

Lemma rendered_onDelete (deletedPin : Pin) (st : State) :
  rendered st → rendered (onDelete deletedPin st).
Proof.
  unfold rendered. intros Hr. rewrite pinsCache_onDelete.
  cbn [onDelete markersLayer updateCounts with_countEls removePinFromMap
       with_markersLayer with_pinsCache].
  by apply Forall2_marker_of_remove.
Qed.

Lemma counts_shown_updateCounts (st : State) : counts_shown (updateCounts st).
Proof.
  intros k v Hk. cbn [updateCounts countEls pinsCache with_countEls].
  rewrite show_counts_lookup, (tally_categories_count _ _ Hk).
  destruct (countEls st !! k); simpl; congruence.
Qed.

Lemma dimming_matches_applyFilter (st : State) :
  dimming_matches (applyFilter (activeFilters st) st).
Proof.
  intros layer pin cl Hin Hpin Hel.
  cbn [applyFilter markersLayer activeFilters with_markersLayer] in *.
  apply list_elem_of_fmap in Hin as (layer0 & -> & _).
  by eapply applyFilter_layer_dimmed.
Qed.

End Markers.

Lemma counts_shown_ext (st st' : State) :
  countEls st' = countEls st → pinsCache st' = pinsCache st →
  counts_shown st → counts_shown st'.
Proof. unfold counts_shown. intros -> ->. done. Qed.

Lemma Forall2_marker_of_absent `{Host} (id : jsid) (pins : list Pin)
    (layers : list Marker) :
  Forall2 marker_of pins layers →
  Forall (fun p => pin_id p ≠ id) pins →
  Forall (fun layer => carries id layer = false) layers.
Proof.
  induction 1 as [|pin layer pins layers Hm _ IH]; intros Hne; [constructor|].
  apply Forall_cons in Hne as [Hpin Hrest]. constructor; [|by apply IH].
  unfold carries. destruct Hm as (-> & _). by apply bool_decide_eq_false_2.
Qed.

(** X7. Adding a pin's marker and then removing the markers of that pin's
    identifier gives back the state there was, provided no marker carried
    that identifier before. *)
Theorem add_then_remove_marker `{Host} (pin : Pin) (st : State) :
  (∀ layer, layer ∈ markersLayer st → carries (pin_id pin) layer = false) →
  removePinFromMap (pin_id pin) (addPinToMap pin st) = st.
Proof.
  intros Hfree. unfold removePinFromMap. rewrite markersLayer_addPinToMap.
  rewrite filter_app, filter_cons_False
    by (rewrite carries_drawn; discriminate).
  rewrite filter_nil, app_nil_r, filter_all by (by apply Forall_forall).
  by destruct st.
Qed.

Lemma add_then_remove_marker_witness :
  let st := addPinToMap (H := SeriesHost.host) baton_rouge page in
  removePinFromMap (pin_id slidell) (addPinToMap (H := SeriesHost.host) slidell st)
  = st.
Proof.
  intros st. apply add_then_remove_marker.
  intros layer Hlayer. subst st. rewrite markersLayer_addPinToMap in Hlayer.
  apply elem_of_cons in Hlayer as [-> | Hlayer]; [reflexivity|].
  by apply elem_of_nil in Hlayer.
Defined.

(** X8. [renderPins] leaves in the layer group exactly one marker per given
    pin, in the given order, each carrying its pin, that pin's popup and
    that pin's marker options; nothing of the markers that were there
    before survives, and the pin cache is not touched. *)
Theorem renderPins_one_marker_per_pin `{Host} (pins : list Pin) (st st0 : State) :
  Forall2 marker_of pins (markersLayer (renderPins pins st))
  ∧ markersLayer (renderPins pins st) = markersLayer (renderPins pins st0)
  ∧ pinsCache (renderPins pins st) = pinsCache st.
Proof.
  rewrite !markersLayer_renderPins.
  split; [apply Forall2_marker_of_drawn | by split].
Qed.

(** X9. The realtime handlers keep the layer group in step with the cache:
    if the group holds one marker per cached pin, in cache order, each with
    its pin's popup and options, then it still does after any sequence of
    insert, update and delete changes handled in the order delivered. *)
Theorem realtime_keeps_markers_in_step `{Host} (changes : list Change)
    (st : State) :
  rendered st → rendered (deliver changes st).
Proof.
  revert st. induction changes as [|change changes IH]; intros st Hr; [exact Hr|].
  unfold deliver. simpl. apply IH.
  destruct change as [new|new|old]; cbn [setupRealtime subscribeToChanges].
  - by apply rendered_onInsert.
  - apply rendered_onUpdate.
  - by apply rendered_onDelete.
Qed.

Lemma realtime_keeps_markers_in_step_witness :
  let moved := sample_pin 2 "past" 30.5%float (-91.0)%float in
  rendered (H := SeriesHost.host)
    (deliver (H := SeriesHost.host)
       [INSERT slidell; INSERT baton_rouge; UPDATE moved; DELETE slidell] page).
Proof.
  intros moved. apply realtime_keeps_markers_in_step. constructor.
Defined.

(** X10. After each realtime change the count elements are up to date:
    every category's element that the page has shows the number of cached
    pins of that category, and so after any non-empty sequence of
    changes. *)
Theorem realtime_refreshes_counts `{Host} (st : State) :
  (∀ change, counts_shown (setupRealtime change st))
  ∧ (∀ changes, changes ≠ [] → counts_shown (deliver changes st)).
Proof.
  assert (Hone : ∀ change st0, counts_shown (setupRealtime change st0)).
  { intros [new|new|old] st0; cbn [setupRealtime subscribeToChanges].
    - unfold onInsert. case_decide.
      + apply counts_shown_updateCounts.
      + eapply counts_shown_ext; [| |apply counts_shown_updateCounts]; reflexivity.
    - unfold onUpdate.
      eapply counts_shown_ext; [| |apply counts_shown_updateCounts]; reflexivity.
    - apply counts_shown_updateCounts. }
  split; [intros change; apply Hone|].
  intros changes Hne.
  destruct changes as [|change0 changes] using rev_ind; [done|].
  unfold deliver. rewrite foldl_app. simpl. apply Hone.
Qed.

(** X11. Dimming after a realtime change.  After an insert of a pin whose
    status is not active, and after any update, every drawn marker is dimmed
    exactly when its pin's status is not active; a delete keeps that
    property if it held. *)
Theorem realtime_dimming `{Host} (pin : Pin) (st : State) :
  (status pin ∉ activeFilters st → dimming_matches (onInsert pin st))
  ∧ dimming_matches (onUpdate pin st)
  ∧ (dimming_matches st → dimming_matches (onDelete pin st)).
Proof.
  split; [|split].
  - intros Hout. unfold onInsert.
    rewrite decide_False by exact Hout.
    apply dimming_matches_applyFilter.
  - unfold onUpdate. apply dimming_matches_applyFilter.
  - intros Hdim layer p cl Hin Hpin Hel.
    cbn [onDelete markersLayer activeFilters updateCounts with_countEls
         removePinFromMap with_markersLayer with_pinsCache] in *.
    apply list_elem_of_filter in Hin as [_ Hin]. by eapply Hdim.
Qed.

Lemma realtime_dimming_witness :
  dimming_matches
    (onInsert (H := SeriesHost.host) baton_rouge (toggleFilter "critical" page)).
Proof.
  destruct (realtime_dimming (H := SeriesHost.host) baton_rouge
              (toggleFilter "critical" page)) as [Hinsert _].
  apply Hinsert. rewrite toggleFilter_active. rewrite decide_True by reflexivity.
  intros Hout. apply Hout. apply all_filters_spec. unfold categories.
  apply list_elem_of_here.
Defined.

(** X12. A delete change for an identifier that no cached pin has changes
    neither the cache nor, when the layer group is in step with the cache,
    the markers. *)
Theorem onDelete_absent `{Host} (deletedPin : Pin) (st : State) :
  (∀ p, p ∈ pinsCache st → pin_id p ≠ pin_id deletedPin) →
  pinsCache (onDelete deletedPin st) = pinsCache st
  ∧ (rendered st → markersLayer (onDelete deletedPin st) = markersLayer st).
Proof.
  intros Habsent. apply Forall_forall in Habsent.
  rewrite pinsCache_onDelete.
  cbn [onDelete markersLayer updateCounts with_countEls removePinFromMap
       with_markersLayer with_pinsCache].
  split; [by apply filter_all|].
  intros Hr. apply filter_all. by eapply Forall2_marker_of_absent.
Qed.

Lemma onDelete_absent_witness :
  let st := deliver (H := SeriesHost.host) [INSERT slidell] page in
  pinsCache (onDelete baton_rouge st) = pinsCache st
  ∧ markersLayer (onDelete baton_rouge st) = markersLayer st.
Proof.
  intros st.
  destruct (onDelete_absent (H := SeriesHost.host) baton_rouge st)
    as [Hcache Hmarkers].
  - intros p Hp. subst st. unfold deliver in Hp. simpl in Hp.
    rewrite (pinsCache_onInsert (H := SeriesHost.host)) in Hp.
    apply elem_of_cons in Hp as [-> | Hp]; [discriminate|].
    by apply elem_of_nil in Hp.
  - split; [exact Hcache|]. apply Hmarkers.
    subst st. apply (rendered_onInsert (H := SeriesHost.host)). constructor.
Defined.

(** X13. Start-up.  Whatever the store answers, [init] ends normally with
    the cache holding the rows of a successful answer, or nothing, the layer
    group in step with the cache, the count elements up to date and the
    active set as it was. *)
Theorem init_renders_and_counts `{Host} (reply : StoreReply) (st : State) :
  ∃ st',
    init reply st = (Ok tt, st')
    ∧ pinsCache st'
      = match supabaseRequest reply with Ok (Some rows) => rows | _ => [] end
    ∧ rendered st'
    ∧ counts_shown st'
    ∧ activeFilters st' = activeFilters st.
Proof.
  unfold init. rewrite getAllPins_cases.
  destruct (supabaseRequest reply) as [[rows|]|e];
    (eexists; split; [reflexivity|]; split; [reflexivity|];
     split; [|split; [apply counts_shown_updateCounts | reflexivity]];
     unfold rendered;
     cbn [updateCounts markersLayer pinsCache with_countEls];
     rewrite markersLayer_renderPins; apply Forall2_marker_of_drawn).
Qed.

(* ===================================================================== *)
(** * Search: what a run does and leaves alone *)
(* ===================================================================== *)

Lemma fetches_app (l1 l2 : list Event) :
  fetches (l1 ++ l2) = fetches l1 ++ fetches l2.
Proof. unfold fetches. apply flat_map_app. Qed.

Lemma same_data_showSearchResult message type st :
  same_data st (showSearchResult message type st).
Proof. by repeat split. Qed.

Section SearchRuns.

Context `{Host}.

Lemma handleSearch_transport_failure value reply st :
  test_zip (trim value) = true →
  reply = FetchRejected ∨ reply = FetchResponse true None →
  handleSearch value reply st =
  (Ok tt,
   showSearchResult (lit "Search failed. Please try again.") "error"
     (emit (EvConsoleError "Search error:")
        (emit (EvFetch (trim value ++ lit ", USA"))
           (showSearchResult (lit "Searching...") "neutral" st)))).
Proof.
  intros Hz Hreply. unfold handleSearch.
  destruct (trim value) as [|c q] eqn:E; [discriminate Hz|].
  rewrite bool_decide_eq_false_2 by discriminate. rewrite Hz.
  destruct Hreply as [-> | ->]; reflexivity.
Qed.

(** Every reply to a well-formed zip code falls under one of three lemmas:
    not found, resolved, transport failure. *)
Lemma reply_cases (reply : GeocoderReply) :
  ((∃ json, reply = FetchResponse false json) ∨ reply = FetchResponse true (Some []))
  ∨ (∃ result rest, reply = FetchResponse true (Some (result :: rest)))
  ∨ (reply = FetchRejected ∨ reply = FetchResponse true None).
Proof.
  destruct reply as [|[|] [[|result rest]|]]; eauto 6.
Qed.

End SearchRuns.

(** X14. A search never throws and never touches the data: whatever the
    text of the search box and whatever the geocoder does, [handleSearch]
    returns normally and the pin cache, the active filters, the markers, the
    map overlays and the counts are what they were; only the result line
    and the record of effects change. *)
Theorem handleSearch_leaves_data_alone `{Host}
    (value : codeunits) (reply : GeocoderReply) (st : State) :
  ∃ st', handleSearch value reply st = (Ok tt, st') ∧ same_data st st'.
Proof.
  destruct (decide (trim value = [])) as [E|E].
  { rewrite (handleSearch_empty _ _ _ E). eexists. split; [reflexivity|].
    apply same_data_showSearchResult. }
  destruct (test_zip (trim value)) eqn:Hz.
  2: { rewrite (handleSearch_malformed _ _ _ E Hz). eexists.
       split; [reflexivity|]. apply same_data_showSearchResult. }
  destruct (reply_cases reply) as [Hnf | [(result & rest & ->) | Hfail]].
  - rewrite (handleSearch_not_found _ _ _ Hz Hnf). eexists.
    split; [reflexivity|]. by repeat split.
  - rewrite (handleSearch_resolved _ _ _ _ Hz). eexists.
    split; [reflexivity|]. by repeat split.
  - rewrite (handleSearch_transport_failure _ _ _ Hz Hfail). eexists.
    split; [reflexivity|]. by repeat split.
Qed.

(** X15. A well-formed zip code costs exactly one geocoder request, for the
    zip code followed by ", USA", whatever the geocoder answers; a rejected
    fetch and an answer that is not JSON are logged to the console and
    reported as "Search failed. Please try again."; any other text of the
    search box costs no request. *)
Theorem handleSearch_one_request `{Host}
    (value : codeunits) (reply : GeocoderReply) (st : State) :
  let st' := (handleSearch value reply st).2 in
  (test_zip (trim value) = true →
   fetches (log st') = fetches (log st) ++ [trim value ++ lit ", USA"]
   ∧ (reply = FetchRejected ∨ reply = FetchResponse true None →
      last (log st')
      = Some (EvShowSearchResult (lit "Search failed. Please try again.") "error")
      ∧ EvConsoleError "Search error:" ∈ log st'))
  ∧ (test_zip (trim value) = false → fetches (log st') = fetches (log st)).
Proof.
  intros st'. subst st'. split.
  - intros Hz. split.
    + destruct (reply_cases reply) as [Hnf | [(result & rest & ->) | Hfail]].
      * rewrite (handleSearch_not_found _ _ _ Hz Hnf). cbn [snd].
        rewrite log_showSearchResult. cbn [log emit].
        rewrite log_showSearchResult, !fetches_app. cbn. by rewrite !app_nil_r.
      * rewrite (handleSearch_resolved _ _ _ _ Hz). cbn [snd].
        rewrite log_showSearchResult. cbn [log emit].
        rewrite log_showSearchResult, !fetches_app. cbn. by rewrite !app_nil_r.
      * rewrite (handleSearch_transport_failure _ _ _ Hz Hfail). cbn [snd].
        rewrite log_showSearchResult. cbn [log emit].
        rewrite log_showSearchResult, !fetches_app. cbn. by rewrite !app_nil_r.
    + intros Hfail. rewrite (handleSearch_transport_failure _ _ _ Hz Hfail).
      cbn [snd]. rewrite log_showSearchResult. split; [apply last_snoc|].
      cbn [log emit]. rewrite !elem_of_app, !list_elem_of_singleton. tauto.
  - intros Hz. destruct (decide (trim value = [])) as [E|E].
    + rewrite (handleSearch_empty _ _ _ E). cbn [snd].
      rewrite log_showSearchResult, fetches_app. cbn. by rewrite app_nil_r.
    + rewrite (handleSearch_malformed _ _ _ E Hz). cbn [snd].
      rewrite log_showSearchResult, fetches_app. cbn. by rewrite app_nil_r.
Qed.

Lemma handleSearch_one_request_witness :
  fetches (log (handleSearch (H := SeriesHost.host) (lit "70112") FetchRejected page).2)
  = [lit "70112, USA"]
  ∧ fetches (log (handleSearch (H := SeriesHost.host) (lit "7011") FetchRejected page).2)
    = [].
Proof.
  destruct (handleSearch_one_request (H := SeriesHost.host) (lit "70112")
              FetchRejected page) as [Hvalid _].
  destruct (handleSearch_one_request (H := SeriesHost.host) (lit "7011")
              FetchRejected page) as [_ Hinvalid].
  split.
  - destruct Hvalid as [Hone _]; [reflexivity|]. exact Hone.
  - apply Hinvalid. reflexivity.
Defined.

(* ===================================================================== *)
(** * Search: white space around the zip code *)
(* ===================================================================== *)

Lemma digit_not_whitespace (c : N) : is_digit c = true → is_whitespace c = false.
Proof.
  unfold is_digit. intros Hd.
  apply andb_true_iff in Hd as [Hlo%N.leb_le Hhi%N.leb_le].
  assert (Hc : c ∈ [48; 49; 50; 51; 52; 53; 54; 55; 56; 57]%N).
  { assert (c = 48 ∨ c = 49 ∨ c = 50 ∨ c = 51 ∨ c = 52 ∨ c = 53 ∨ c = 54
            ∨ c = 55 ∨ c = 56 ∨ c = 57)%N as Hcases by lia.
    set_solver. }
  repeat (apply elem_of_cons in Hc as [-> | Hc]; [reflexivity|]).
  by apply elem_of_nil in Hc.
Qed.

Lemma trimStart_whitespace (ws s : codeunits) :
  forallb is_whitespace ws = true → trimStart (ws ++ s) = trimStart s.
Proof.
  induction ws as [|c ws IH]; intros Hws; [reflexivity|].
  simpl in Hws. apply andb_true_iff in Hws as [Hc Hws].
  simpl. rewrite Hc. by apply IH.
Qed.

Lemma trimStart_digits (q s : codeunits) :
  forallb is_digit q = true → q ≠ [] → trimStart (q ++ s) = q ++ s.
Proof.
  destruct q as [|c q]; intros Hq Hne; [done|].
  simpl in Hq. apply andb_true_iff in Hq as [Hc _].
  simpl. by rewrite (digit_not_whitespace _ Hc).
Qed.

Lemma forallb_rev {A} (f : A → bool) (l : list A) :
  forallb f (rev l) = forallb f l.
Proof.
  induction l as [|x l IH]; [reflexivity|].
  simpl. rewrite forallb_app, IH. simpl. rewrite andb_true_r. apply andb_comm.
Qed.

Lemma trim_around_digits (pre q post : codeunits) :
  forallb is_digit q = true → q ≠ [] →
  forallb is_whitespace pre = true → forallb is_whitespace post = true →
  trim (pre ++ q ++ post) = q.
Proof.
  intros Hq Hne Hpre Hpost. unfold trim, trimEnd.
  rewrite (trimStart_whitespace _ _ Hpre), (trimStart_digits _ _ Hq Hne).
  rewrite rev_app_distr, trimStart_whitespace by (by rewrite forallb_rev).
  rewrite <- (app_nil_r (rev q)), trimStart_digits.
  - by rewrite app_nil_r, rev_involutive.
  - by rewrite forallb_rev.
  - intros Hrev. apply Hne. apply (f_equal (@rev N)) in Hrev.
    by rewrite rev_involutive in Hrev.
Qed.

(** X16. White space around a zip code does not matter: a search box
    holding five digits between any runs of white space (spaces, tabs, line
    ends, no-break spaces and the like) is handled exactly as the five digits
    alone. *)
Theorem handleSearch_ignores_surrounding_space `{Host}
    (pre zip post : codeunits) (reply : GeocoderReply) (st : State) :
  test_zip zip = true →
  forallb is_whitespace pre = true → forallb is_whitespace post = true →
  handleSearch (pre ++ zip ++ post) reply st = handleSearch zip reply st.
Proof.
  intros Hz Hpre Hpost. unfold test_zip in Hz.
  apply andb_true_iff in Hz as [Hlen%Nat.eqb_eq Hdigits].
  assert (Hne : zip ≠ []) by (intros ->; discriminate Hlen).
  assert (Hfull : trim (pre ++ zip ++ post) = zip)
    by (by apply trim_around_digits).
  assert (Hbare : trim zip = zip).
  { rewrite <- (app_nil_r zip) at 1. by apply (trim_around_digits [] zip []). }
  unfold handleSearch. by rewrite Hfull, Hbare.
Qed.

Lemma handleSearch_ignores_surrounding_space_witness :
  handleSearch (H := SeriesHost.host) (lit "  " ++ lit "70112" ++ [160; 10]%N)
    FetchRejected page
  = handleSearch (H := SeriesHost.host) (lit "70112") FetchRejected page.
Proof.
  apply (handleSearch_ignores_surrounding_space (H := SeriesHost.host));
    reflexivity.
Defined.

(* ===================================================================== *)
(** * The result line *)
(* ===================================================================== *)

(** X17. [showSearchResult] shows the message, unhides the line, and leaves
    it with the error class exactly for type "error" and with the success
    class exactly for type "success"; any other class of the line stays as
    it was. *)
Theorem showSearchResult_classes (message : codeunits) (type : string)
    (st : State) :
  let line := searchResult (showSearchResult message type st) in
  rl_textContent line = message
  ∧ ("is-hidden"%string ∉ rl_classList line)
  ∧ ("search-bar__result--error"%string ∈ rl_classList line
     ↔ type = "error"%string)
  ∧ ("search-bar__result--success"%string ∈ rl_classList line
     ↔ type = "success"%string)
  ∧ (∀ c, c ≠ "is-hidden"%string → c ≠ "search-bar__result--error"%string →
          c ≠ "search-bar__result--success"%string →
          (c ∈ rl_classList line ↔ c ∈ rl_classList (searchResult st))).
Proof.
  intros line. subst line.
  cbn [showSearchResult searchResult emit with_searchResult rl_textContent
       rl_classList].
  split; [reflexivity|].
  destruct (decide (type = "error"%string)) as [-> | Herr];
    [|destruct (decide (type = "success"%string)) as [-> | Hsucc]];
    rewrite ?classList_add_spec, !classList_remove_spec;
    (split; [|split; [|split]]).
  all: try (intros c; rewrite ?classList_add_spec, !classList_remove_spec).
  all: try (split; intros; try done; naive_solver).
  all: naive_solver.
Qed.

(* ===================================================================== *)
(** * Popups: layout and links *)
(* ===================================================================== *)

(** X18. The layout of a popup.  It starts with the header, holding the
    status dot and the pin's title as text, and the creation date; then
    come, in this order and each only when it applies, the address (a
    non-empty address), the summary (a non-empty summary) and the action
    section (some flag strictly true). *)
Theorem createPopupContent_layout `{Host} (pin : Pin) :
  let any_flag :=
    is_true (show_donate pin) || is_true (show_volunteer pin)
    || is_true (show_help pin) in
  ∃ header dateEl rest,
    children (createPopupContent pin) = header :: dateEl :: rest
    ∧ className header = "pin-popup__header"%string
    ∧ map (fun e => (className e, textContent e)) (children header)
      = [("pin-popup__status", ""); ("pin-popup__title", title pin)]%string
    ∧ (className dateEl, textContent dateEl)
      = ("pin-popup__date"%string, toLocaleDateString (created_at pin))
    ∧ map (fun e => (className e, textContent e)) rest
      = (if truthy (address pin)
         then [("pin-popup__address"%string, default ""%string (address pin))]
         else [])
        ++ (if truthy (summary pin)
            then [("pin-popup__summary"%string, default ""%string (summary pin))]
            else [])
        ++ (if any_flag then [("pin-popup__actions", "")]%string else []).
Proof.
  intros any_flag. subst any_flag. unfold createPopupContent.
  destruct (truthy (address pin)), (truthy (summary pin)),
    (is_true (show_donate pin)), (is_true (show_volunteer pin)),
    (is_true (show_help pin)), (truthy (url pin));
    (eexists _, _, _; repeat split; reflexivity).
Qed.

(** X19. The links of a popup.  A popup has no link at all unless some flag
    is strictly true, not even when the pin has a URL; otherwise its links
    are, in this order, Donate, Volunteer, Get Help for the flags that are
    on and then the custom link when the URL is a non-empty string.  Every
    link opens in a new tab and the custom link's label is never empty. *)
Theorem createPopupContent_links `{Host} (pin : Pin) :
  links (createPopupContent pin)
  = (if is_true (show_donate pin) || is_true (show_volunteer pin)
        || is_true (show_help pin)
     then (if is_true (show_donate pin) then [donateBtn] else [])
          ++ (if is_true (show_volunteer pin) then [volunteerBtn] else [])
          ++ (if is_true (show_help pin) then [helpBtn] else [])
          ++ (if truthy (url pin) then [urlBtn pin] else [])
     else [])
  ∧ Forall (fun a => target a = Some "_blank"%string) (links (createPopupContent pin))
  ∧ textContent (urlBtn pin) ≠ ""%string
  ∧ map link_facts (links (createPopupContent pin))
    = (if is_true (show_donate pin) || is_true (show_volunteer pin)
          || is_true (show_help pin)
       then (if is_true (show_donate pin)
             then [("a", "pin-popup__btn pin-popup__btn--donate",
                    Some "https://www.unitedcajunnavy.org/donate",
                    Some "_blank", "Donate")]%string
             else [])
            ++ (if is_true (show_volunteer pin)
                then [("a", "pin-popup__btn pin-popup__btn--volunteer",
                       Some "https://www.unitedcajunnavy.org/volunteer",
                       Some "_blank", "Volunteer")]%string
                else [])
            ++ (if is_true (show_help pin)
                then [("a", "pin-popup__btn pin-popup__btn--help",
                       Some "https://www.unitedcajunnavy.org/request-help",
                       Some "_blank", "Get Help")]%string
                else [])
            ++ (if truthy (url pin)
                then [("a"%string, "pin-popup__btn pin-popup__btn--url"%string,
                       url pin, Some "_blank"%string,
                       if truthy (url_text pin)
                       then default ""%string (url_text pin)
                       else "More Info"%string)]
                else [])
       else []).
Proof.
  assert (Hlabel : textContent (urlBtn pin) ≠ ""%string).
  { unfold urlBtn. cbn. unfold truthy.
    destruct (url_text pin) as [text|]; [|discriminate]. simpl.
    case_bool_decide as Hempty; [discriminate | exact Hempty]. }
  assert (Hlinks : links (createPopupContent pin)
    = (if is_true (show_donate pin) || is_true (show_volunteer pin)
          || is_true (show_help pin)
       then (if is_true (show_donate pin) then [donateBtn] else [])
            ++ (if is_true (show_volunteer pin) then [volunteerBtn] else [])
            ++ (if is_true (show_help pin) then [helpBtn] else [])
            ++ (if truthy (url pin) then [urlBtn pin] else [])
       else [])).
  { unfold createPopupContent.
    destruct (is_true (show_donate pin)), (is_true (show_volunteer pin)),
      (is_true (show_help pin)), (truthy (url pin)),
      (truthy (address pin)), (truthy (summary pin)); reflexivity. }
  split; [exact Hlinks|]. split; [|split; [exact Hlabel|]].
  - rewrite Hlinks.
    destruct (is_true (show_donate pin)), (is_true (show_volunteer pin)),
      (is_true (show_help pin)), (truthy (url pin)); cbn;
      repeat constructor.
  - rewrite Hlinks. unfold urlBtn.
    destruct (is_true (show_donate pin)), (is_true (show_volunteer pin)),
      (is_true (show_help pin)); cbn [orb app map];
      try reflexivity;
      (destruct (url pin) as [u|]; [|reflexivity];
       cbn [truthy]; destruct (bool_decide (u = ""%string)); reflexivity).
Qed.

(* ===================================================================== *)
(** * PinStore: the write wrappers *)
(* ===================================================================== *)

(** X20. What [savePin] posts renders like the data it was given: any row
    whose fields are those of the posted body, with the same creation time,
    has the same popup and the same marker options as the submitted pin. *)
Theorem saved_row_renders_alike `{Host} (pin row : Pin) :
  let posted := savePin_body pin in
  title row = np_title posted →
  address row = Some (np_address posted) →
  summary row = Some (np_summary posted) →
  status row = np_status posted →
  url row = Some (np_url posted) →
  url_text row = Some (np_url_text posted) →
  show_donate row = Some (np_show_donate posted) →
  show_volunteer row = Some (np_show_volunteer posted) →
  show_help row = Some (np_show_help posted) →
  created_at row = created_at pin →
  createPopupContent row = createPopupContent pin
  ∧ options (createPinMarker row) = options (createPinMarker pin).
Proof.
  intros posted Ht Ha Hs Hst Hu Hut Hd Hv Hh Hc. subst posted.
  cbn [savePin_body np_title np_address np_summary np_status np_url
       np_url_text np_show_donate np_show_volunteer np_show_help] in *.
  assert (Hor : ∀ s d, truthy (Some (or_string s d)) = truthy s || truthy (Some d)).
  { intros s d. unfold or_string. destruct (truthy s) eqn:E; [|reflexivity].
    destruct s as [s|]; [|discriminate E]. simpl in *. by rewrite E. }
  assert (Hsame : ∀ s, truthy s = true → or_string s "" = default ""%string s).
  { intros s E. unfold or_string. by rewrite E. }
  assert (Hflag : ∀ f, is_true (Some (or_false f)) = is_true f).
  { by intros [[|]|]. }
  split.
  - unfold createPopupContent, urlBtn.
    rewrite Ht, Ha, Hs, Hst, Hu, Hut, Hd, Hv, Hh, Hc, !Hflag, !Hor.
    cbn [truthy bool_decide decide_rel default orb negb].
    rewrite !orb_false_r.
    destruct (truthy (address pin)) eqn:Ea, (truthy (summary pin)) eqn:Es,
      (truthy (url pin)) eqn:Eu, (truthy (url_text pin)) eqn:Et;
      rewrite ?(Hsame _ Ea), ?(Hsame _ Es), ?(Hsame _ Eu);
      unfold or_string; rewrite ?Et; reflexivity.
  - unfold createPinMarker. by rewrite Hst.
Qed.

Lemma saved_row_renders_alike_witness :
  let draft :=
    {| pin_id := IdNum 0; title := "Shelter"; address := None;
       status := "warning"; summary := Some "Open overnight"%string;
       url := Some "https://example.org"%string; url_text := None;
       pin_lat := 30.1%float; pin_lng := (-90.2)%float;
       show_donate := Some true; show_volunteer := None;
       show_help := Some false; created_at := "2025-02-01T08:00:00Z" |} in
  let row :=
    {| pin_id := IdNum 41; title := "Shelter"; address := Some ""%string;
       status := "warning"; summary := Some "Open overnight"%string;
       url := Some "https://example.org"%string;
       url_text := Some "More Info"%string;
       pin_lat := 30.1%float; pin_lng := (-90.2)%float;
       show_donate := Some true; show_volunteer := Some false;
       show_help := Some false; created_at := "2025-02-01T08:00:00Z" |} in
  createPopupContent (H := SeriesHost.host) row
  = createPopupContent (H := SeriesHost.host) draft.
Proof.
  intros draft row.
  apply (saved_row_renders_alike (H := SeriesHost.host) draft row); reflexivity.
Defined.

(** X21. The write wrappers never throw.  [deletePin] answers true exactly
    when the store's response is a success whose body is empty or parses;
    [updatePin] and [getPinById] answer the first row of a successful
    response and null in every other case, never undefined; [savePin]
    answers the first row, null on a failure or an empty body, and undefined
    when the store answers with an empty array. *)
Theorem write_wrappers_outcomes (reply : StoreReply) :
  (∃ v, savePin reply = Ok v) ∧ (∃ v, updatePin reply = Ok v)
  ∧ (∃ v, getPinById reply = Ok v) ∧ (∃ b, deletePin reply = Ok b)
  ∧ (deletePin reply = Ok true ↔
     ∃ code body, reply = Response true code body ∧ body ≠ Unparseable)
  ∧ (∀ row : Pin, updatePin reply = Ok (Value row) ↔
            ∃ code rest, reply = Response true code (Rows (row :: rest)))
  ∧ (∀ row : Pin, savePin reply = Ok (Value row) ↔
            ∃ code rest, reply = Response true code (Rows (row :: rest)))
  ∧ updatePin reply ≠ Ok Undef
  ∧ getPinById reply = updatePin reply
  ∧ (savePin reply = Ok Undef ↔ ∃ code, reply = Response true code (Rows [])).
Proof.
  destruct reply as [|[|] code [| |[|row0 rest0]]]; cbn;
    repeat split; eauto; try discriminate;
    try (intros (? & ? & [= ] & ?)); try (intros (? & ? & [= ]));
    try (intros (? & [= ])); try (intros [= ]); subst; eauto;
    try congruence.
  all: try (intros _; eexists _, _; split; [reflexivity | discriminate]).
Qed.

(* ===================================================================== *)
(** * Geocoder answers: the place label *)
(* ===================================================================== *)

Lemma split_comma_nonempty (s : codeunits) : split_comma s ≠ [].
Proof.
  destruct s as [|c rest]; simpl; [discriminate|].
  destruct (c =? 44)%N; [discriminate|]. by destruct (split_comma rest).
Qed.

Lemma join_comma_cons (part : codeunits) (parts : list codeunits) :
  parts ≠ [] → join_comma (part :: parts) = part ++ 44%N :: join_comma parts.
Proof. by destruct parts. Qed.

Lemma join_split_comma (s : codeunits) : join_comma (split_comma s) = s.
Proof.
  induction s as [|c rest IH]; [reflexivity|]. simpl.
  destruct (N.eqb_spec c 44) as [-> | Hc].
  - rewrite join_comma_cons by apply split_comma_nonempty. by rewrite IH.
  - destruct (split_comma rest) as [|part parts] eqn:E.
    + by destruct (split_comma_nonempty rest).
    + destruct parts as [|part' parts]; simpl in *; by rewrite <- IH.
Qed.

Lemma split_comma_length (s : list N) :
  length (split_comma s) = S (length (filter (fun c => c = 44%N) s)).
Proof.
  induction s as [|c rest IH]; [reflexivity|].
  destruct (decide (c = 44%N)) as [-> | Hc].
  - rewrite filter_cons_True by reflexivity. cbn. by rewrite IH.
  - rewrite filter_cons_False by exact Hc. cbn [split_comma].
    rewrite (proj2 (N.eqb_neq c 44) Hc).
    destruct (split_comma rest) as [|part parts] eqn:E;
      [by destruct (split_comma_nonempty rest) | exact IH].
Qed.

(** X22. Splitting a place name at its commas and joining the parts with
    commas gives the name back, and the number of parts is one more than the
    number of commas; so for a name with at most one comma the label the
    geocoder lookup returns is the whole name, trimmed. *)
Theorem geocode_label (name : list N) :
  join_comma (split_comma name) = name
  ∧ length (split_comma name) = S (length (filter (fun c => c = 44%N) name))
  ∧ (length (filter (fun c => c = 44%N) name) ≤ 1 →
     ∀ zip la lo rest st,
       (geocode zip
          (FetchResponse true
             (Some ({| nr_lat := la; nr_lon := lo; display_name := name |} :: rest)))
          st).1
       = Ok (Some {| co_lat := la; co_lng := lo; co_display := trim name |})).
Proof.
  split; [apply join_split_comma|]. split; [apply split_comma_length|].
  intros Hcommas zip la lo rest st. unfold geocode, bind, run, ret. cbn.
  rewrite take_ge by (rewrite split_comma_length; lia).
  by rewrite join_split_comma.
Qed.

Lemma geocode_label_witness :
  (geocode (lit "70112")
     (FetchResponse true
        (Some [{| nr_lat := 29.95%float; nr_lon := (-90.07)%float;
                  display_name := lit " New Orleans, Louisiana " |}]))
     page).1
  = Ok (Some {| co_lat := 29.95%float; co_lng := (-90.07)%float;
                co_display := lit "New Orleans, Louisiana" |}).
Proof.
  destruct (geocode_label (lit " New Orleans, Louisiana ")) as (_ & _ & Hlabel).
  rewrite Hlabel; [reflexivity | vm_compute; lia].
Defined.

(* ===================================================================== *)
(** * Admin: login screen, admin panel and map start-up *)
(* ===================================================================== *)

Lemma one_screen_showLoginScreen (st : AdminState) : one_screen (showLoginScreen st).
Proof.
  unfold one_screen, showLoginScreen. cbn [loginScreen adminPanel with_screens].
  rewrite classList_remove_spec, classList_add_spec. split; [by intros [? _]|].
  intros Hout. destruct Hout. by left.
Qed.

Lemma screens_showAdminPanel (st : AdminState) :
  loginScreen (showAdminPanel st) = classList_add "is-hidden" (loginScreen st)
  ∧ adminPanel (showAdminPanel st) = classList_remove "is-hidden" (adminPanel st).
Proof. unfold showAdminPanel. cbn. by destruct (mapInitialized st). Qed.

Lemma showAdminPanel_rest (st : AdminState) :
  signInCalls (showAdminPanel st) = signInCalls st
  ∧ loginButton (showAdminPanel st) = loginButton st
  ∧ loginError (showAdminPanel st) = loginError st
  ∧ emailInput (showAdminPanel st) = emailInput st
  ∧ passwordInput (showAdminPanel st) = passwordInput st.
Proof. unfold showAdminPanel. cbn. by destruct (mapInitialized st). Qed.

Lemma one_screen_showAdminPanel (st : AdminState) : one_screen (showAdminPanel st).
Proof.
  unfold one_screen. destruct (screens_showAdminPanel st) as [-> ->].
  rewrite classList_remove_spec, classList_add_spec. split; [by intros _ [? _]|].
  intros _. by left.
Qed.

Lemma handleLogin_screens (reply : AuthReply) (st : AdminState) :
  (loginScreen (handleLogin reply st) = loginScreen st
   ∧ adminPanel (handleLogin reply st) = adminPanel st)
  ∨ (trim (emailInput st) ≠ [] ∧ passwordInput st ≠ []
     ∧ truthy (si_error (signIn reply)) = false
     ∧ loginScreen (handleLogin reply st) = classList_add "is-hidden" (loginScreen st)
     ∧ adminPanel (handleLogin reply st)
       = classList_remove "is-hidden" (adminPanel st)).
Proof.
  unfold handleLogin.
  destruct (bool_decide (trim (emailInput st) = [])) eqn:He;
    [left; by split|].
  destruct (bool_decide (passwordInput st = [])) eqn:Hp; [left; by split|].
  apply bool_decide_eq_false in He, Hp. cbn [orb].
  destruct (truthy (si_error (signIn reply))) eqn:Herr; [left; by split|].
  right. repeat (split; [done|]).
  match goal with |- context [showAdminPanel ?s] =>
    destruct (screens_showAdminPanel s) as [-> ->] end.
  by split.
Qed.

Lemma one_screen_step (e : AdminEvent) (st : AdminState) :
  one_screen st → one_screen (admin_step e st).
Proof.
  intros Hone. destruct e as [reply|email password reply|threw|event];
    cbn [admin_step].
  - unfold checkAuth. destruct (getSession_user reply);
      [apply one_screen_showAdminPanel | apply one_screen_showLoginScreen].
  - destruct (handleLogin_screens reply (with_inputs email password st))
      as [[Hl Hp] | (_ & _ & _ & Hl & Hp)]; unfold one_screen; rewrite Hl, Hp.
    + exact Hone.
    + cbn [loginScreen adminPanel with_inputs].
      rewrite classList_remove_spec, classList_add_spec.
      split; [by intros _ [? _] | intros _; by left].
  - unfold handleLogout, one_screen. cbn [loginScreen adminPanel with_inputs].
    apply one_screen_showLoginScreen.
  - unfold authStateChanged. case_decide; [apply one_screen_showLoginScreen | exact Hone].
Qed.

(** X23. Once [checkAuth] has run, exactly one of the login screen and the
    admin panel is hidden, and that stays so through any sequence of
    logins, logouts, session checks and auth-state notifications. *)
Theorem screens_exclusive (reply : SessionReply) (events : list AdminEvent)
    (st : AdminState) :
  one_screen (admin_run (CheckAuth reply :: events) st).
Proof.
  unfold admin_run. simpl.
  assert (Hfirst : one_screen (checkAuth reply st)).
  { unfold checkAuth. destruct (getSession_user reply);
      [apply one_screen_showAdminPanel | apply one_screen_showLoginScreen]. }
  revert Hfirst. generalize (checkAuth reply st). clear st.
  induction events as [|e events IH]; intros st Hone; [exact Hone|].
  simpl. apply IH. by apply one_screen_step.
Qed.

(** X24. The login form.  With an e-mail that is empty after trimming, or an
    empty password, no sign-in call is made and the screens stay as they
    are.  Otherwise exactly one call is made, with the trimmed e-mail and
    the password as typed.  The admin panel opens exactly when that call
    comes back without a non-empty error message; when it comes back with
    one, the message is shown, the password input is emptied and the
    screens stay as they are. *)
Theorem handleLogin_gate (email password : codeunits) (reply : AuthReply)
    (st : AdminState) :
  let st' := admin_step (Login email password reply) st in
  (trim email = [] ∨ password = [] →
   signInCalls st' = signInCalls st
   ∧ loginScreen st' = loginScreen st ∧ adminPanel st' = adminPanel st
   ∧ le_textContent (loginError st') = "Please enter email and password"%string)
  ∧ (trim email ≠ [] → password ≠ [] →
     signInCalls st' = signInCalls st ++ [(trim email, password)]
     ∧ lb_disabled (loginButton st') = false
     ∧ (truthy (si_error (signIn reply)) = false →
        ("is-hidden"%string ∉ adminPanel st')
        ∧ "is-hidden"%string ∈ loginScreen st'
        ∧ "is-hidden"%string ∈ le_classList (loginError st'))
     ∧ (∀ message, si_error (signIn reply) = Some message → message ≠ ""%string →
        loginScreen st' = loginScreen st ∧ adminPanel st' = adminPanel st
        ∧ le_textContent (loginError st') = message
        ∧ ("is-hidden"%string ∉ le_classList (loginError st'))
        ∧ passwordInput st' = [] ∧ emailInput st' = email)).
Proof.
  intros st'. subst st'. cbn [admin_step]. unfold handleLogin.
  cbn [emailInput passwordInput with_inputs]. split.
  - intros Hempty.
    assert (bool_decide (trim email = []) || bool_decide (password = []) = true)
      as -> by (destruct Hempty as [E|E];
                rewrite (bool_decide_eq_true_2 _ E), ?orb_true_r; reflexivity).
    by repeat split.
  - intros He Hp.
    rewrite (bool_decide_eq_false_2 _ He), (bool_decide_eq_false_2 _ Hp). cbn [orb].
    split.
    { destruct (truthy (si_error (signIn reply))); [reflexivity|].
      match goal with |- context [showAdminPanel ?s] =>
        destruct (showAdminPanel_rest s) as (-> & _) end.
      reflexivity. }
    split.
    { destruct (truthy (si_error (signIn reply))); [reflexivity|].
      match goal with |- context [showAdminPanel ?s] =>
        destruct (showAdminPanel_rest s) as (_ & -> & _) end.
      reflexivity. }
    split.
    + intros ->.
      match goal with |- context [showAdminPanel ?s] =>
        destruct (screens_showAdminPanel s) as [Hl Hpanel];
        destruct (showAdminPanel_rest s) as (_ & _ & Herr & _)
      end.
      rewrite Hl, Hpanel, Herr.
      cbn [loginError loginScreen adminPanel hideLoginError with_loginError
           with_loginButton call_signIn with_inputs le_classList].
      rewrite classList_remove_spec, !classList_add_spec.
      split; [by intros [? _]|]. split; by left.
    + intros message Hmsg Hne.
      assert (truthy (si_error (signIn reply)) = true) as ->.
      { rewrite Hmsg. simpl. by rewrite bool_decide_eq_false_2. }
      rewrite Hmsg. cbn.
      rewrite classList_remove_spec. repeat split; try done. by intros [? _].
Qed.

Lemma handleLogin_gate_witness :
  let typed := (lit " admin@example.org ", lit "secret") in
  let refused :=
    admin_step (Login typed.1 typed.2
                  (AuthAnswer None (Some "Invalid login credentials"%string)))
      (checkAuth NoSession admin_page) in
  let granted :=
    admin_step (Login typed.1 typed.2 (AuthAnswer (Some "u-1"%string) None))
      (checkAuth NoSession admin_page) in
  signInCalls refused = [(lit "admin@example.org", lit "secret")]
  ∧ passwordInput refused = []
  ∧ "is-hidden"%string ∉ adminPanel granted.
Proof.
  intros typed refused granted.
  destruct (handleLogin_gate typed.1 typed.2
              (AuthAnswer None (Some "Invalid login credentials"%string))
              (checkAuth NoSession admin_page)) as [_ Hrefused].
  destruct (handleLogin_gate typed.1 typed.2 (AuthAnswer (Some "u-1"%string) None)
              (checkAuth NoSession admin_page)) as [_ Hgranted].
  destruct Hrefused as (Hcalls & _ & _ & Hshown); [discriminate..|].
  destruct Hgranted as (_ & _ & Hopen & _); [discriminate..|].
  split; [exact Hcalls|]. split.
  - by destruct (Hshown _ eq_refl) as (_ & _ & _ & _ & Hpw & _).
  - by destruct (Hopen eq_refl) as [Hpanel _].
Defined.

Lemma admin_step_inits (e : AdminEvent) (st : AdminState) :
  (mapInitialized (admin_step e st) = mapInitialized st
   ∧ adminMapInits (admin_step e st) = adminMapInits st)
  ∨ (mapInitialized st = false
     ∧ mapInitialized (admin_step e st) = true
     ∧ adminMapInits (admin_step e st) = S (adminMapInits st)
     ∧ "is-hidden"%string ∉ adminPanel (admin_step e st)).
Proof.
  assert (Hpanel : ∀ s,
    (mapInitialized (showAdminPanel s) = mapInitialized s
     ∧ adminMapInits (showAdminPanel s) = adminMapInits s)
    ∨ (mapInitialized s = false
       ∧ mapInitialized (showAdminPanel s) = true
       ∧ adminMapInits (showAdminPanel s) = S (adminMapInits s)
       ∧ "is-hidden"%string ∉ adminPanel (showAdminPanel s))).
  { intros s. unfold showAdminPanel. cbn.
    destruct (mapInitialized s) eqn:E; [left; by split|]. right. cbn.
    repeat split; try done. rewrite classList_remove_spec. by intros [? _]. }
  destruct e as [reply|email password reply|threw|event]; cbn [admin_step].
  - unfold checkAuth. destruct (getSession_user reply); [apply Hpanel|left; by split].
  - unfold handleLogin.
    destruct (bool_decide _ || bool_decide _); [left; by split|].
    destruct (truthy (si_error (signIn reply))); [left; by split|].
    match goal with |- context [showAdminPanel ?s] => destruct (Hpanel s) as [H|H] end.
    + left. exact H.
    + right. exact H.
  - left. by split.
  - unfold authStateChanged. case_decide; left; by split.
Qed.

(** X25. The admin map is initialised at most once: through any sequence of
    session checks, logins, logouts and auth-state notifications
    [initAdminMap] is started at most one more time, and not at all if it
    has been started before. *)
Theorem initAdminMap_at_most_once (events : list AdminEvent) (st : AdminState) :
  adminMapInits (admin_run events st)
  ≤ adminMapInits st + (if mapInitialized st then 0 else 1).
Proof.
  revert st. induction events as [|e events IH]; intros st.
  - simpl. lia.
  - unfold admin_run. simpl. specialize (IH (admin_step e st)).
    unfold admin_run in IH.
    destruct (admin_step_inits e st) as [[Hflag Hn] | (Hoff & Hon & Hn & _)].
    + rewrite Hflag, Hn in IH. exact IH.
    + rewrite Hon, Hn in IH. rewrite Hoff. lia.
Qed.

(* ===================================================================== *)
(** * Admin: the temporary marker *)
(* ===================================================================== *)

Lemma one_temp_marker_step (to_text : float → codeunits) (e : EditorEvent)
    (st : EditorState) :
  one_temp_marker st → one_temp_marker (editor_step to_text e st).
Proof.
  unfold one_temp_marker. intros Hone.
  destruct e as [clat clng|]; cbn [editor_step].
  - unfold handleMapClick.
    destruct (tempMarker st) as [old|] eqn:Hold;
      cbn [tempLayers tempMarker resetForm remove_temp set_pinForm
           set_tempMarker pinForm tempStamp option_list];
      rewrite Hone; unfold option_list; cbn [option_rect].
    + rewrite filter_cons_False by (intros Hne; by apply Hne).
      by rewrite filter_nil.
    + reflexivity.
  - unfold handleCancel.
    destruct (tempMarker st) as [old|] eqn:Hold;
      cbn [tempLayers tempMarker resetForm remove_temp set_pinForm
           set_tempMarker pinForm tempStamp option_list];
      rewrite ?Hold, Hone; unfold option_list; cbn [option_rect].
    + rewrite filter_cons_False by (intros Hne; by apply Hne).
      by rewrite filter_nil.
    + reflexivity.
Qed.

(** X26. The admin map never shows two temporary markers.  If the map holds
    just the temporary marker the editor remembers, it still does after any
    sequence of map clicks and cancels; a click leaves exactly one, at the
    clicked position, with the form shown, and a cancel leaves none, with
    the form hidden. *)
Theorem temp_marker_replaced (to_text : float → codeunits)
    (events : list EditorEvent) (st : EditorState) :
  one_temp_marker st →
  let st' := editor_run to_text events st in
  one_temp_marker st'
  ∧ length (tempLayers st') ≤ 1
  ∧ (∀ clat clng,
       let clicked := handleMapClick to_text clat clng st' in
       (∃ marker, tempLayers clicked = [marker]
                  ∧ tm_lat marker = clat ∧ tm_lng marker = clng)
       ∧ "is-hidden"%string ∉ pinForm clicked)
  ∧ tempLayers (handleCancel st') = []
  ∧ "is-hidden"%string ∈ pinForm (handleCancel st').
Proof.
  intros Hone st'.
  assert (Hrun : one_temp_marker st').
  { subst st'. revert st Hone.
    induction events as [|e events IH]; intros st Hone; [exact Hone|].
    unfold editor_run. simpl. apply IH. by apply one_temp_marker_step. }
  split; [exact Hrun|]. split.
  { unfold one_temp_marker in Hrun. rewrite Hrun.
    destruct (tempMarker st'); simpl; lia. }
  split; [|split].
  - intros clat clng clicked.
    pose proof (one_temp_marker_step to_text (MapClick clat clng) st' Hrun) as Hc.
    unfold one_temp_marker in Hc. cbn [editor_step] in Hc. fold clicked in Hc.
    split.
    + rewrite Hc. subst clicked. unfold handleMapClick. cbn.
      eexists. repeat split.
    + subst clicked. unfold handleMapClick. cbn [pinForm set_pinForm].
      rewrite classList_remove_spec. by intros [? _].
  - pose proof (one_temp_marker_step to_text Cancel st' Hrun) as Hc.
    unfold one_temp_marker in Hc. cbn [editor_step] in Hc. rewrite Hc.
    unfold handleCancel.
    destruct (tempMarker st') eqn:E;
      cbn [tempMarker set_pinForm resetForm set_tempMarker]; by rewrite ?E.
  - unfold handleCancel.
    destruct (tempMarker st'); cbn [pinForm set_pinForm];
      rewrite classList_add_spec; by left.
Qed.

Lemma temp_marker_replaced_witness :
  let to_text := fun _ : float => lit "30" in
  let st :=
    editor_run to_text
      [MapClick 30.1%float (-90.2)%float; MapClick 30.3%float (-90.4)%float]
      editor_start in
  map (fun l => (tm_lat l, tm_lng l)) (tempLayers st)
  = [(30.3%float, (-90.4)%float)].
Proof.
  intros to_text st.
  destruct (temp_marker_replaced to_text
              [MapClick 30.1%float (-90.2)%float; MapClick 30.3%float (-90.4)%float]
              editor_start eq_refl) as (Hone & _).
  fold st in Hone. unfold one_temp_marker in Hone. rewrite Hone. reflexivity.
Defined.
